(** * msgpack-rpc endpoint: a shallow embedding of the Go package [endpoint]

    The development follows the three source files of the package: the
    protocol engine (type [endpoint] with [send], [Call], [Notify],
    [register], [suitableMethods] and the public registration and dispatch
    entry points), and the two connection wrappers [Client] and
    [ServerConn].

    Conventions of the embedding.
    - A [uint32] is a [Z] in [0, 2^32) with the wrap-around written out.
    - An [interface{}] value is a [value]; an [error] is an [option string]
      ([None] is Go's [nil]).
    - A [net.Conn] is a reference ([connid]) into a store of connections
      ([gmap connid Conn]): a wrapper and its endpoint hold the same
      connection, so both see every write and every close.  A [*request]
      is a reference into a store of request objects; the two stores make
      up the [world].
    - Go maps are [gmap]s.
    - A run-time panic is the result [Panic]; every stateful operation
      returns the state it leaves behind, also when it panics.
    - The mutexes [mu] and [pendingmu] only order concurrent tasks; each
      operation is modelled as it runs when no other task interferes, so
      locking and unlocking leave no trace in the state.
    - Logging is not part of the model. *)

From Stdlib Require Import ZArith Lia List Ascii String.
From stdpp Require Import gmap strings list.

Set Warnings "-register-all".

Open Scope string_scope.
Open Scope Z_scope.

(** ** Values, errors, panics, channels *)

(** Go's [error] interface: [None] is [nil]. *)
Definition error := option string.

Definition errors_New (s : string) : error := Some s.

(** The dynamic values that travel in envelopes. *)
Inductive value :=
| VNil
| VInt (z : Z)
| VUint32 (z : Z)
| VString (s : string)
| VSlice (l : list value).

(** The result of running a piece of Go code: it completes with a value or
    it panics. *)
Inductive outcome (A : Type) :=
| Done (a : A)
| Panic (reason : string).
Arguments Done {A} a.
Arguments Panic {A} reason.

(** A [chan int] as the code uses it: the zero value [nil], a channel made
    by [make] and not closed, and a closed channel. *)
Inductive chan := ChNil | ChOpen | ChClosed.

(** The builtin [close]. *)
Definition chan_close (c : chan) : outcome chan :=
  match c with
  | ChNil => Panic "close of nil channel"
  | ChClosed => Panic "close of closed channel"
  | ChOpen => Done ChClosed
  end.

(** A receive [<-c] with no sender: it completes only on a closed
    channel. *)
Definition chan_recv_ready (c : chan) : bool :=
  match c with
  | ChClosed => true
  | ChNil | ChOpen => false
  end.

(** ** The connection and the codec (external collaborators) *)

Definition connid := nat.

(** What the engine needs of a [net.Conn]: the objects written so far (the
    codec is opaque, so the wire is the sequence of encoded objects), the
    fault the transport currently answers writes with, and whether and how
    often [Close] was called. *)
Record Conn := mkConn {
  written : list value;
  wfault : error;
  nclose : nat
}.

Abbreviation net := (gmap connid Conn).

Definition errNetClosing : string := "use of closed network connection".

(** One [Write] of an encoded object. *)
Definition conn_Write (obj : value) (c : Conn) : error * Conn :=
  if (0 <? nclose c)%nat then (Some errNetClosing, c)
  else match wfault c with
       | Some e => (Some e, c)
       | None => (None, mkConn (written c ++ [obj]) (wfault c) (nclose c))
       end.

Definition conn_Close (c : Conn) : Conn :=
  mkConn (written c) (wfault c) (S (nclose c)).

(** [*codec.MsgpackHandle]: an opaque configuration handle. *)
Definition MsgpackHandle := nat.

(** [codec.NewEncoder(conn, mpk).Encode(obj)]: a method call on a nil
    [net.Conn] panics. *)
Definition Encode (conn : option connid) (obj : value) (n : net)
  : outcome error * net :=
  match conn with
  | None => (Panic "nil pointer dereference", n)
  | Some id =>
      match n !! id with
      | None => (Panic "nil pointer dereference", n)
      | Some c =>
          let '(e, c') := conn_Write obj c in
          (Done e, <[id := c']> n)
      end
  end.

(** [conn.Close()]; the error it returns is dropped by the callers. *)
Definition Close_conn (conn : option connid) (n : net) : outcome unit * net :=
  match conn with
  | None => (Panic "nil pointer dereference", n)
  | Some id =>
      match n !! id with
      | None => (Panic "nil pointer dereference", n)
      | Some c => (Done tt, <[id := conn_Close c]> n)
      end
  end.

(** ** The endpoint *)

Definition msgpackRPCReq : Z := 0.
Definition msgpackRPCRsp : Z := 1.
Definition msgpackRPCNotify : Z := 2.

Definition uint32_max : Z := 2 ^ 32.

(** [atomic.AddUint32(&x, 1)]. *)
Definition AddUint32 (x delta : Z) : Z := (x + delta) mod uint32_max.

Record request := mkRequest {
  done : chan;
  r_msgid : Z;
  rsp : value;
  r_err : error
}.

(** A [*request]: the pending table and the task suspended in [Call] hold
    the same request object, which lives in the store [reqs]. *)
Definition reqptr := nat.

(** The objects that outlive a call: the connections and the requests. *)
Record world := mkWorld {
  conns : net;
  reqs : list request
}.

(** [&request{...}]: a new object, at an address not in use. *)
Definition new_request (r : request) (w : world) : reqptr * world :=
  (length (reqs w), mkWorld (conns w) (reqs w ++ [r])).

(** ** Reflection: what the registry inspects of Go types *)

Module reflect.

(** [reflect.Kind]. *)
Inductive Kind :=
| Invalid | Bool | Int | Int8 | Int16 | Int32 | Int64
| Uint | Uint8 | Uint16 | Uint32 | Uint64 | Uintptr
| Float32 | Float64 | Complex64 | Complex128
| Array | Chan | Func | Interface | Map | Ptr | Slice
| String | Struct | UnsafePointer.

(** A [reflect.Type] as far as the registry looks at it: its kind, its
    [Name()] and [PkgPath()] (both empty for an unnamed type) and, for a
    pointer type, its [Elem()].  [TBase] stands for every type that is not
    a pointer type. *)
Inductive Type_ :=
| TBase (k : Kind) (name pkgPath : string)
| TPtr (name pkgPath : string) (elem : Type_).

Definition Kind_of (t : Type_) : Kind :=
  match t with
  | TBase k _ _ => k
  | TPtr _ _ _ => Ptr
  end.

Definition Name (t : Type_) : string :=
  match t with
  | TBase _ nm _ => nm
  | TPtr nm _ _ => nm
  end.

Definition PkgPath (t : Type_) : string :=
  match t with
  | TBase _ _ p => p
  | TPtr _ p _ => p
  end.

(** [reflect.PtrTo(t)]: the unnamed type [*t]. *)
Definition PtrTo (t : Type_) : Type_ := TPtr "" "" t.

#[global] Instance Kind_eq_dec : EqDecision Kind.
Proof. solve_decision. Defined.

#[global] Instance Type_eq_dec : EqDecision Type_.
Proof. solve_decision. Defined.

(** The type of a method as [reflect.Method.Type] shows it: a function type
    whose first input is the receiver. *)
Record FuncType := mkFuncType {
  ins : list Type_;
  outs : list Type_
}.

Definition NumIn (f : FuncType) : nat := length (ins f).
Definition NumOut (f : FuncType) : nat := length (outs f).

(** [Type.In(i)] and [Type.Out(i)] index a slice: out of range they
    panic. *)
Definition In_ (f : FuncType) (i : nat) : outcome Type_ :=
  match ins f !! i with
  | Some t => Done t
  | None => Panic "index out of range"
  end.

Definition Out (f : FuncType) (i : nat) : outcome Type_ :=
  match outs f !! i with
  | Some t => Done t
  | None => Panic "index out of range"
  end.

(** [reflect.Method]; [MPkgPath] is empty exactly for an exported method. *)
Record Method := mkMethod {
  MName : string;
  MPkgPath : string;
  MType : FuncType
}.

(** A value handed to the registry as an [interface{}], as far as
    [reflect.TypeOf], [reflect.ValueOf] and [reflect.Indirect] tell: the nil
    interface, a nil pointer of a pointer type [t], or a non-nil value of
    type [t]. *)
Inductive Value :=
| VNilInterface
| VNilPtr (t : Type_)
| VOf (t : Type_).

(** [reflect.TypeOf(v)]; [None] is the nil [reflect.Type]. *)
Definition TypeOf (v : Value) : option Type_ :=
  match v with
  | VNilInterface => None
  | VNilPtr t | VOf t => Some t
  end.

(** [reflect.Indirect(reflect.ValueOf(v)).Type()]: the pointee's type for a
    pointer, the value's own type otherwise; [Type()] of the zero [Value]
    (which is what a nil interface and a nil pointer give) panics. *)
Definition Indirect_Type (v : Value) : outcome Type_ :=
  match v with
  | VNilInterface | VNilPtr _ =>
      Panic "reflect: call of reflect.Value.Type on zero Value"
  | VOf (TPtr _ _ e) => Done e
  | VOf t => Done t
  end.

End reflect.

(** ** [unicode/utf8] and [unicode] *)

Module utf8.

Definition RuneError : Z := 65533.

Definition byte_of (a : ascii) : Z := Z.of_N (N_of_ascii a).

Definition cont (lo hi b : Z) : bool := (lo <=? b) && (b <=? hi).

(** The first bytes of the string, read as far as they exist. *)
Definition bytes4 (s : string) : list Z :=
  match s with
  | String.String a (String.String b (String.String c (String.String d _))) =>
      [byte_of a; byte_of b; byte_of c; byte_of d]
  | String.String a (String.String b (String.String c _)) =>
      [byte_of a; byte_of b; byte_of c]
  | String.String a (String.String b _) => [byte_of a; byte_of b]
  | String.String a _ => [byte_of a]
  | EmptyString => []
  end.

(** The second byte a leading byte accepts, and the length of the
    sequence it starts; [None] for a byte that starts no sequence. *)
Definition lead (s0 : Z) : option (nat * Z * Z) :=
  if (194 <=? s0) && (s0 <=? 223) then Some (2%nat, 128, 191)
  else if s0 =? 224 then Some (3%nat, 160, 191)
  else if (225 <=? s0) && (s0 <=? 236) then Some (3%nat, 128, 191)
  else if s0 =? 237 then Some (3%nat, 128, 159)
  else if (238 <=? s0) && (s0 <=? 239) then Some (3%nat, 128, 191)
  else if s0 =? 240 then Some (4%nat, 144, 191)
  else if (241 <=? s0) && (s0 <=? 243) then Some (4%nat, 128, 191)
  else if s0 =? 244 then Some (4%nat, 128, 143)
  else None.

(** The rune of [utf8.DecodeRuneInString(s)] (the width is not used by the
    package). *)
Definition DecodeRuneInString (s : string) : Z :=
  match bytes4 s with
  | [] => RuneError
  | s0 :: rest =>
      if s0 <? 128 then s0
      else match lead s0 with
           | None => RuneError
           | Some (sz, lo, hi) =>
               if (S (length rest) <? sz)%nat then RuneError
               else match sz, rest with
                    | 2%nat, s1 :: _ =>
                        if cont lo hi s1
                        then Z.lor (Z.shiftl (Z.land s0 31) 6) (Z.land s1 63)
                        else RuneError
                    | 3%nat, s1 :: s2 :: _ =>
                        if cont lo hi s1 && cont 128 191 s2
                        then Z.lor (Z.lor (Z.shiftl (Z.land s0 15) 12)
                                          (Z.shiftl (Z.land s1 63) 6))
                                   (Z.land s2 63)
                        else RuneError
                    | 4%nat, s1 :: s2 :: s3 :: _ =>
                        if cont lo hi s1 && cont 128 191 s2 && cont 128 191 s3
                        then Z.lor (Z.lor (Z.lor (Z.shiftl (Z.land s0 7) 18)
                                                 (Z.shiftl (Z.land s1 63) 12))
                                          (Z.shiftl (Z.land s2 63) 6))
                                   (Z.land s3 63)
                        else RuneError
                    | _, _ => RuneError
                    end
           end
  end.

End utf8.

Module unicode.

Definition MaxLatin1 : Z := 255.

(** The upper-case letters of Latin-1. *)
Definition upperLatin1 (r : Z) : bool :=
  ((65 <=? r) && (r <=? 90)) || ((192 <=? r) && (r <=? 214))
  || ((216 <=? r) && (r <=? 222)).

(** [unicode.IsUpper]; [Upper] is the range table of the upper-case letters
    above Latin-1. *)
Definition IsUpper (Upper : Z -> bool) (r : Z) : bool :=
  if r <=? MaxLatin1 then upperLatin1 r else Upper r.

End unicode.

(** ** The data of the engine *)

(** The reflect type of the interface [error], computed once. *)
Definition typeOfError : reflect.Type_ := reflect.TBase reflect.Interface "error" "".

Record methodType := mkMethodType {
  method : reflect.Method;
  ArgType : reflect.Type_;
  ReplyType : reflect.Type_;
  numCalls : nat
}.

Record service := mkService {
  s_name : string;
  rcvr : reflect.Value;
  typ : option reflect.Type_;
  s_method : gmap string methodType;
  s_notify : gmap string methodType
}.

Record endpoint := mkEndpoint {
  conn : option connid;
  closed : bool;
  err : error;
  msgid : Z;
  pending : gmap Z reqptr;
  mpk : MsgpackHandle;
  serviceMap : option (gmap string service)
}.

Definition newEndpoint (conn : option connid) (mpk : MsgpackHandle) : endpoint :=
  mkEndpoint conn false None 0 ∅ mpk (Some ∅).

Definition set_msgid (ep : endpoint) (i : Z) : endpoint :=
  mkEndpoint (conn ep) (closed ep) (err ep) i (pending ep) (mpk ep) (serviceMap ep).

Definition set_pending (ep : endpoint) (p : gmap Z reqptr) : endpoint :=
  mkEndpoint (conn ep) (closed ep) (err ep) (msgid ep) p (mpk ep) (serviceMap ep).

Definition set_serviceMap (ep : endpoint) (m : option (gmap string service)) : endpoint :=
  mkEndpoint (conn ep) (closed ep) (err ep) (msgid ep) (pending ep) (mpk ep) m.

(** ** The service registry *)

Section Registry.

(** What the run-time system knows of the program's types: the method set
    of each type in the order [Type.Method(i)] enumerates it, and the
    printed form [Type.String()]. *)
Variable methodSet : reflect.Type_ -> list reflect.Method.
Variable Type_String : reflect.Type_ -> string.

(** The range table [unicode.Upper] above Latin-1. *)
Variable Upper : Z -> bool.

(** [suitableMethods] stores [argType] in every descriptor, an identifier
    that no file of the package declares. *)
Variable argType : reflect.Type_.

(** Is this an exported - upper case - name? *)
Definition isExported (name : string) : bool :=
  unicode.IsUpper Upper (utf8.DecodeRuneInString name).

(** Is this type exported or a builtin?  The loop strips the pointers. *)
Fixpoint isExportedOrBuiltinType (t : reflect.Type_) : bool :=
  match t with
  | reflect.TPtr _ _ e => isExportedOrBuiltinType e
  | reflect.TBase _ nm pkg => isExported nm || bool_decide (pkg = "")
  end.

(** One turn of the loop of [suitableMethods]: [continue] leaves the map as
    it is, the last statement stores the descriptor. *)
Definition suitableMethods_body (m : reflect.Method)
    (methods : gmap string methodType) : outcome (gmap string methodType) :=
  let mtype := reflect.MType m in
  let mname := reflect.MName m in
  if negb (bool_decide (reflect.MPkgPath m = "")) then Done methods
  else
    match reflect.In_ mtype 2 with
    | Panic r => Panic r
    | Done replyType =>
        if negb (bool_decide (reflect.Kind_of replyType = reflect.Ptr))
        then Done methods
        else if negb (isExportedOrBuiltinType replyType) then Done methods
        else if negb (reflect.NumOut mtype =? 1)%nat then Done methods
        else
          match reflect.Out mtype 0 with
          | Panic r => Panic r
          | Done returnType =>
              if negb (bool_decide (returnType = typeOfError))
              then Done methods
              else Done (<[mname := mkMethodType m argType replyType 0]> methods)
          end
    end.

Fixpoint suitableMethods_loop (ms : list reflect.Method)
    (methods : gmap string methodType) : outcome (gmap string methodType) :=
  match ms with
  | [] => Done methods
  | m :: rest =>
      match suitableMethods_body m methods with
      | Panic r => Panic r
      | Done methods' => suitableMethods_loop rest methods'
      end
  end.

(** [suitableMethods(typ, reportErr)]; [reportErr] only switches the
    logging. *)
Definition suitableMethods (typ : reflect.Type_) (reportErr : bool)
  : outcome (gmap string methodType) :=
  suitableMethods_loop (methodSet typ) ∅.

Definition has_service (m : option (gmap string service)) (sname : string) : bool :=
  match m with
  | Some sm => bool_decide (is_Some (sm !! sname))
  | None => false
  end.

Definition store_service (m : option (gmap string service)) (s : service)
  : option (gmap string service) :=
  match m with
  | Some sm => Some (<[s_name s := s]> sm)
  | None => None
  end.

(** [endpoint.register]. *)
Definition register (rcvr : reflect.Value) (name : string) (useName : bool)
    (ep : endpoint) : outcome error * endpoint :=
  let ep :=
    match serviceMap ep with
    | None => set_serviceMap ep (Some ∅)
    | Some _ => ep
    end in
  match reflect.Indirect_Type rcvr, reflect.TypeOf rcvr with
  | Panic r, _ => (Panic r, ep)
  | Done _, None => (Panic "nil pointer dereference", ep)
  | Done t, Some s_typ =>
      let sname := if useName then name else reflect.Name t in
      if bool_decide (sname = "") then
        (Done (errors_New ("rpc.Register: no service name for type "
                           ++ Type_String s_typ)), ep)
      else if negb (isExported sname) && negb useName then
        (Done (errors_New ("rpc.Register: type " ++ sname ++ " is not exported")), ep)
      else if has_service (serviceMap ep) sname then
        (Done (errors_New ("rpc: service already defined: " ++ sname)), ep)
      else
        match suitableMethods s_typ true with
        | Panic r => (Panic r, ep)
        | Done s_method =>
            if (size s_method =? 0)%nat then
              match suitableMethods (reflect.PtrTo s_typ) false with
              | Panic r => (Panic r, ep)
              | Done method =>
                  let str :=
                    if negb (size method =? 0)%nat
                    then "rpc.Register: type " ++ sname
                         ++ " has no exported methods of suitable type (hint: pass a pointer to value of that type)"
                    else "rpc.Register: type " ++ sname
                         ++ " has no exported methods of suitable type" in
                  (Done (errors_New str), ep)
              end
            else
              let s := mkService sname rcvr (Some s_typ) s_method ∅ in
              (Done None, set_serviceMap ep (store_service (serviceMap ep) s))
        end
  end.

End Registry.

(** ** The send path *)

(** [endpoint.send]: under [mu], a closed endpoint answers with its stored
    error; otherwise the object is encoded onto the connection. *)
Definition send (reqobj : list value) (ep : endpoint) (w : world)
  : outcome error * endpoint * world :=
  if closed ep then (Done (err ep), ep, w)
  else
    let '(r, n') := Encode (conn ep) (VSlice reqobj) (conns w) in
    (r, ep, mkWorld n' (reqs w)).

(** How a [Call] ends: it returns, or its task is suspended in
    [<-req.done] on the request it registered. *)
Inductive call_result :=
| Returned (rsp : value) (err : error)
| Blocked (req : reqptr).

(** [endpoint.Call].  The variadic [params] arrive as one slice, which is
    the fourth element of the request object. *)
Definition Call (method : string) (params : list value) (ep : endpoint) (w : world)
  : outcome call_result * endpoint * world :=
  let msgid := AddUint32 (msgid ep) 1 in
  let ep := set_msgid ep msgid in
  let reqobj := [VInt msgpackRPCReq; VUint32 msgid; VString method; VSlice params] in
  if closed ep then (Done (Returned VNil (err ep)), ep, w)
  else
    let '(req, w) := new_request (mkRequest ChOpen msgid VNil None) w in
    let ep := set_pending ep (<[msgid := req]> (pending ep)) in
    match send reqobj ep w with
    | (Panic r, ep, w) => (Panic r, ep, w)
    | (Done e, ep, w) =>
        match reqs w !! req with
        | None => (Panic "nil pointer dereference", ep, w)
        | Some r =>
            match e with
            | Some _ =>
                (Done (Returned VNil e),
                 set_pending ep (delete (r_msgid r) (pending ep)), w)
            | None =>
                if chan_recv_ready (done r)
                then (Done (Returned (rsp r) (r_err r)), ep, w)
                else (Done (Blocked req), ep, w)
            end
        end
    end.

(** [endpoint.Notify]. *)
Definition Notify (method : string) (params : list value) (ep : endpoint) (w : world)
  : outcome error * endpoint * world :=
  let reqobj := [VInt msgpackRPCNotify; VString method; VSlice params] in
  send reqobj ep w.

(** ** The dispatch loop and the public registration entry points

    Each body is the bare [return] of the source, which yields the zero
    value of the named result and touches nothing. *)
Definition Register (svc : reflect.Value) (ep : endpoint) : error * endpoint :=
  (None, ep).

Definition RegisterName (svc : reflect.Value) (name : string) (ep : endpoint)
  : error * endpoint :=
  (None, ep).

Definition RegisterMethod (svc : reflect.Value) (ep : endpoint) : error * endpoint :=
  (None, ep).

Definition RegisterMethodName (method : reflect.Value) (name : string)
    (ep : endpoint) : error * endpoint :=
  (None, ep).

Definition Reading (closed : chan) (ep : endpoint) (w : world)
  : error * endpoint * world :=
  (None, ep, w).

(** ** The connection wrappers *)

Record Client := mkClient {
  c_mpk : MsgpackHandle;
  c_ep : endpoint;
  c_conn : option connid;
  c_err : error;
  c_closed : chan
}.

Definition set_c_ep (c : Client) (ep : endpoint) : Client :=
  mkClient (c_mpk c) ep (c_conn c) (c_err c) (c_closed c).

(** [NewClient]: the literal sets [mpk] and [conn] and leaves [closed] at
    its zero value; the task it starts runs [Reading] and stores what it
    returns. *)
Definition NewClient (conn : option connid) (handle : MsgpackHandle) (w : world)
  : Client * world :=
  let c := mkClient handle (newEndpoint conn handle) conn None ChNil in
  let '(e, ep, w') := Reading (c_closed c) (c_ep c) w in
  (mkClient (c_mpk c) ep (c_conn c) e (c_closed c), w').

(** [Client.Call] passes the slice [params] on as the single variadic
    argument of [endpoint.Call]. *)
Definition Client_Call (method : string) (params : list value) (c : Client) (w : world)
  : outcome call_result * Client * world :=
  let '(r, ep, w') := Call method [VSlice params] (c_ep c) w in
  (r, set_c_ep c ep, w').

Definition Client_Notify (method : string) (params : list value) (c : Client) (w : world)
  : outcome error * Client * world :=
  let '(r, ep, w') := Notify method [VSlice params] (c_ep c) w in
  (r, set_c_ep c ep, w').

Definition Client_Register (svc : reflect.Value) (c : Client) : error * Client :=
  let '(e, ep) := Register svc (c_ep c) in
  (e, set_c_ep c ep).

(** [Client.Close]: [close(c.closed)], then [c.conn.Close()]. *)
Definition Client_Close (c : Client) (w : world) : outcome unit * Client * world :=
  match chan_close (c_closed c) with
  | Panic r => (Panic r, c, w)
  | Done ch =>
      let c := mkClient (c_mpk c) (c_ep c) (c_conn c) (c_err c) ch in
      let '(r, n') := Close_conn (c_conn c) (conns w) in
      (r, c, mkWorld n' (reqs w))
  end.

Record ServerConn := mkServerConn {
  sc_ep : endpoint;
  sc_conn : option connid;
  sc_closed : chan
}.

Definition set_sc_ep (sc : ServerConn) (ep : endpoint) : ServerConn :=
  mkServerConn ep (sc_conn sc) (sc_closed sc).

(** [NewServerConn]: the literal sets [conn] and [ep] and leaves [closed]
    at its zero value. *)
Definition NewServerConn (conn : option connid) (mpk : MsgpackHandle) : ServerConn :=
  mkServerConn (newEndpoint conn mpk) conn ChNil.

Definition Serve (sc : ServerConn) (w : world) : error * ServerConn * world :=
  let '(e, ep, w') := Reading (sc_closed sc) (sc_ep sc) w in
  (e, set_sc_ep sc ep, w').

Definition ServerConn_Call (method : string) (params : list value)
    (sc : ServerConn) (w : world) : outcome call_result * ServerConn * world :=
  let '(r, ep, w') := Call method [VSlice params] (sc_ep sc) w in
  (r, set_sc_ep sc ep, w').


Definition ServerConn_Register (svc : reflect.Value) (sc : ServerConn)
  : error * ServerConn :=
  let '(e, ep) := Register svc (sc_ep sc) in
  (e, set_sc_ep sc ep).

(** [ServerConn.Close]: [close(sc.closed)], then [sc.conn.Close()]. *)
Definition ServerConn_Close (sc : ServerConn) (w : world)
  : outcome unit * ServerConn * world :=
  match chan_close (sc_closed sc) with
  | Panic r => (Panic r, sc, w)
  | Done ch =>
      let sc := mkServerConn (sc_ep sc) (sc_conn sc) ch in
      let '(r, n') := Close_conn (sc_conn sc) (conns w) in
      (r, sc, mkWorld n' (reqs w))
  end.

(** ** Derived notions and sample data *)

(** [Calls k]: [k] calls issued one after the other, results dropped. *)
Fixpoint Calls (k : nat) (method : string) (params : list value)
    (ep : endpoint) (w : world) : endpoint * world :=
  match k with
  | O => (ep, w)
  | S k' =>
      let '(_, ep', w') := Call method params ep w in
      Calls k' method params ep' w'
  end.

(** [wrote cid obj n n']: between [n] and [n'] exactly the object [obj] was
    appended to the connection [cid]. *)
Definition wrote (cid : option connid) (obj : value) (n n' : net) : Prop :=
  ∃ id c, cid = Some id ∧ n !! id = Some c ∧
          n' = <[id := mkConn (written c ++ [obj]) (wfault c) (nclose c)]> n.

(** No wrap-around yet: every pending msgid lies in [1, msgid]. *)
Definition pending_below (ep : endpoint) : Prop :=
  0 <= msgid ep ∧ ∀ k r, pending ep !! k = Some r → 0 < k <= msgid ep.

(** A healthy connection and a new endpoint on it. *)
Definition conn0 : Conn := mkConn [] None 0.
Definition w0 : world := mkWorld {[ 0%nat := conn0 ]} [].
Definition ep0 : endpoint := newEndpoint (Some 0%nat) 7%nat.

(** The state after one suspended [Call] on the new endpoint; the same
    with a transport that fails writes; and the endpoint once the counter
    has wrapped around to 0 while that call is still pending. *)
Definition env1 : value := VSlice [VInt 0; VUint32 1; VString "m"; VSlice []].
Definition req1 : request := mkRequest ChOpen 1 VNil None.
Definition ep1 : endpoint :=
  mkEndpoint (Some 0%nat) false None 1 {[ 1 := 0%nat ]} 7%nat (Some ∅).
Definition w1 : world := mkWorld {[ 0%nat := mkConn [env1] None 0 ]} [req1].
Definition w1_broken : world :=
  mkWorld {[ 0%nat := mkConn [env1] (Some "i/o timeout") 0 ]} [req1].
Definition ep_wrapped : endpoint := set_msgid ep1 0.


(** Wrappers whose [closed] channel has been made. *)
Definition sc_open : ServerConn := mkServerConn ep0 (Some 0%nat) ChOpen.
Definition c_open : Client := mkClient 7%nat ep0 (Some 0%nat) None ChOpen.

(** A sample program: [type Arith struct{}] in package [main] with
    [func (Arith) Add(a int, reply *int) error], and [type Probe struct{}]
    with [func (Probe) Ping()] and
    [func (Probe) Sum(a int, reply *int, b int) error]. *)
Definition intT : reflect.Type_ := reflect.TBase reflect.Int "int" "".
Definition arithT : reflect.Type_ := reflect.TBase reflect.Struct "Arith" "main".
Definition probeT : reflect.Type_ := reflect.TBase reflect.Struct "Probe" "main".
Definition pingerT : reflect.Type_ := reflect.TBase reflect.Struct "Pinger" "main".

Definition Add_method : reflect.Method :=
  reflect.mkMethod "Add" ""
    (reflect.mkFuncType [arithT; intT; reflect.PtrTo intT] [typeOfError]).
Definition Ping_method : reflect.Method :=
  reflect.mkMethod "Ping" "" (reflect.mkFuncType [pingerT] []).
Definition Sum_method : reflect.Method :=
  reflect.mkMethod "Sum" ""
    (reflect.mkFuncType [probeT; intT; reflect.PtrTo intT; intT] [typeOfError]).

Definition sample_methodSet (t : reflect.Type_) : list reflect.Method :=
  if decide (t = arithT) then [Add_method]
  else if decide (t = reflect.PtrTo arithT) then [Add_method]
  else if decide (t = pingerT) then [Ping_method]
  else if decide (t = probeT) then [Sum_method]
  else [].

Fixpoint sample_String (t : reflect.Type_) : string :=
  match t with
  | reflect.TBase _ nm pkg => if bool_decide (pkg = "") then nm else pkg ++ "." ++ nm
  | reflect.TPtr _ _ e => "*" ++ sample_String e
  end.

Definition sample_Upper (r : Z) : bool := false.

(** ** Notions used to state the properties of the registry *)

(** The type [isExportedOrBuiltinType] looks at once its loop has
    stripped the pointers. *)
Fixpoint strip_pointers (t : reflect.Type_) : reflect.Type_ :=
  match t with
  | reflect.TPtr _ _ e => strip_pointers e
  | reflect.TBase _ _ _ => t
  end.

(** The type [reflect.Indirect] of a non-nil value of type [ty] has. *)
Definition indirect (ty : reflect.Type_) : reflect.Type_ :=
  match ty with
  | reflect.TPtr _ _ e => e
  | reflect.TBase _ _ _ => ty
  end.

(** An exported method whose type has fewer than three inputs (the
    receiver and at most one argument). *)
Definition short_exported (m : reflect.Method) : bool :=
  bool_decide (reflect.MPkgPath m = "")
  && (reflect.NumIn (reflect.MType m) <=? 2)%nat.

(** The tests of the loop of [suitableMethods], taken together. *)
Definition passes (Upper : Z -> bool) (m : reflect.Method) : bool :=
  bool_decide (reflect.MPkgPath m = "")
  && match reflect.ins (reflect.MType m) !! 2%nat with
     | Some replyType =>
         bool_decide (reflect.Kind_of replyType = reflect.Ptr)
         && isExportedOrBuiltinType Upper replyType
         && bool_decide (reflect.outs (reflect.MType m) = [typeOfError])
     | None => false
     end.

(** The descriptor [suitableMethods] stores for a method: the method,
    [argType], the third input as reply type, and a call count of 0. *)
Definition descriptor (argType : reflect.Type_) (m : reflect.Method) : option methodType :=
  match reflect.ins (reflect.MType m) !! 2%nat with
  | Some replyType => Some (mkMethodType m argType replyType 0)
  | None => None
  end.

(** The registered services; a nil [serviceMap] reads as the empty map. *)
Definition services (ep : endpoint) : gmap string service :=
  default ∅ (serviceMap ep).

(** The service name [register] derives for a non-nil receiver of type
    [ty]. *)
Definition service_name (ty : reflect.Type_) (name : string) (useName : bool) : string :=
  if useName then name else reflect.Name (indirect ty).

(** The request envelope of the call with the given msgid. *)
Definition request_envelope (method : string) (params : list value) (id : Z) : value :=
  VSlice [VInt msgpackRPCReq; VUint32 id; VString method; VSlice params].

(** Upper-case ASCII letter. *)
Definition ascii_upper (b : Z) : bool := (65 <=? b) && (b <=? 90).

(** A second sample program: [type Counter struct{}] whose only method
    has a pointer receiver, [func (c *Counter) Incr(by int, total *int) error];
    and a type with an unexported method in front of [Add]. *)
Definition counterT : reflect.Type_ := reflect.TBase reflect.Struct "Counter" "main".
Definition Incr_method : reflect.Method :=
  reflect.mkMethod "Incr" ""
    (reflect.mkFuncType [reflect.PtrTo counterT; intT; reflect.PtrTo intT] [typeOfError]).
Definition hidden_method : reflect.Method :=
  reflect.mkMethod "reset" "main" (reflect.mkFuncType [arithT] []).
Definition mixedT : reflect.Type_ := reflect.TBase reflect.Struct "Mixed" "main".

Definition sample_methodSet2 (t : reflect.Type_) : list reflect.Method :=
  if decide (t = reflect.PtrTo counterT) then [Incr_method]
  else if decide (t = mixedT) then [hidden_method; Add_method]
  else if decide (t = pingerT) then [hidden_method; Ping_method]
  else [].

(** An endpoint whose counter is at the last 32-bit value. *)
Definition ep_last : endpoint := set_msgid ep0 (uint32_max - 1).

(** * Properties of the send path *)

Lemma Call_closed method params ep w :
  closed ep = true →
  Call method params ep w
  = (Done (Returned VNil (err ep)), set_msgid ep (AddUint32 (msgid ep) 1), w).
Proof. intros H. unfold Call. simpl. rewrite H. reflexivity. Qed.


(** [Call] on an open endpoint, by the result of the write. *)
Lemma Call_open method params ep w :
  closed ep = false →
  let id := AddUint32 (msgid ep) 1 in
  let req := length (reqs w) in
  let rs := (reqs w ++ [mkRequest ChOpen id VNil None])%list in
  let ep' := set_pending (set_msgid ep id) (<[id := req]> (pending ep)) in
  Call method params ep w =
  match Encode (conn ep) (VSlice [VInt 0; VUint32 id; VString method; VSlice params])
          (conns w) with
  | (Panic r, n') => (Panic r, ep', mkWorld n' rs)
  | (Done (Some e), n') =>
      (Done (Returned VNil (Some e)),
       set_pending (set_msgid ep id) (delete id (pending ep)), mkWorld n' rs)
  | (Done None, n') => (Done (Blocked req), ep', mkWorld n' rs)
  end.
Proof.
  intros H. unfold Call, send, new_request. simpl. rewrite H.
  destruct (Encode _ _ _) as [[[e|]|r] n']; simpl; try reflexivity.
  - rewrite list_lookup_middle by done. simpl.
    unfold set_pending; simpl. by rewrite delete_insert_eq.
  - by rewrite list_lookup_middle by done.
Qed.

Lemma Encode_result cid obj n r n' :
  Encode cid obj n = (r, n') →
  (r = Done None ∧ wrote cid obj n n')
  ∨ ((∃ e, r = Done (Some e)) ∧ n' = n)
  ∨ ((∃ p, r = Panic p) ∧ n' = n).
Proof.
  unfold Encode, wrote, conn_Write.
  destruct cid as [id|]; [|intros [= <- <-]; right; right; eauto].
  destruct (n !! id) as [c|] eqn:Hc; [|intros [= <- <-]; right; right; eauto].
  destruct (0 <? nclose c)%nat.
  { intros [= <- <-]. right; left. split; [eauto|]. by apply insert_id. }
  destruct (wfault c) as [e|] eqn:He.
  { intros [= <- <-]. right; left. split; [eauto|]. by apply insert_id. }
  intros [= <- <-]. left. split; [done|]. exists id, c. by rewrite He.
Qed.

(** A write on a connection whose transport is failing. *)
Lemma Encode_fault id c e obj (n : net) :
  n !! id = Some c → wfault c = Some e → nclose c = 0%nat →
  Encode (Some id) obj n = (Done (Some e), n).
Proof.
  intros Hc He Hn. unfold Encode, conn_Write. rewrite Hc, Hn, He. simpl.
  by rewrite insert_id.
Qed.





(** C9, as the code has it.  When the write of the request fails with an
    error [e] on an open endpoint, [Call] returns [(nil, e)] without being
    suspended, nothing is added to the connection, and the pending table
    it leaves is the table before the call with the key [msgid] deleted:
    its own entry is gone, and the table is as before the call whenever
    that msgid was not already pending. *)
Theorem Call_send_failure method params ep w e n' :
  closed ep = false →
  Encode (conn ep)
    (VSlice [VInt 0; VUint32 (AddUint32 (msgid ep) 1); VString method; VSlice params])
    (conns w)
  = (Done (Some e), n') →
  ∃ ep' w', Call method params ep w = (Done (Returned VNil (Some e)), ep', w')
     ∧ conns w' = conns w
     ∧ pending ep' = delete (AddUint32 (msgid ep) 1) (pending ep)
     ∧ pending ep' !! AddUint32 (msgid ep) 1 = None
     ∧ (pending ep !! AddUint32 (msgid ep) 1 = None → pending ep' = pending ep).
Proof.
  intros Hopen HE. rewrite Call_open by done. simpl. rewrite HE.
  eexists _, _. split; [done|]. simpl.
  apply Encode_result in HE as [[[=] _]|[[_ ->]|[[p [=]] _]]].
  repeat split; [apply lookup_delete_eq | by apply delete_id].
Qed.

Lemma Call_send_failure_witness :
  ∃ ep' w', Call "m" [] ep1 w1_broken
            = (Done (Returned VNil (Some "i/o timeout")), ep', w')
     ∧ pending ep' = pending ep1.
Proof.
  destruct (Call_send_failure "m" [] ep1 w1_broken "i/o timeout" (conns w1_broken)
              eq_refl eq_refl) as (ep' & w' & H1 & _ & _ & _ & H5).
  exists ep', w'. split; [exact H1 | exact (H5 eq_refl)].
Defined.

(** C9, counterexample.  With the counter at 0 and the call with msgid 1
    still pending, a [Call] whose write fails deletes the key 1: the
    pending table is not what it was before the call. *)
Lemma Call_send_failure_changes_pending :
  ¬ (∀ method params ep w v e ep' w',
       closed ep = false →
       Call method params ep w = (Done (Returned v (Some e)), ep', w') →
       pending ep' = pending ep).
Proof.
  intros H.
  specialize (H "m" [] ep_wrapped w1_broken VNil "i/o timeout" _ _ eq_refl eq_refl).
  apply (f_equal (λ m, m !! 1)) in H. vm_compute in H. discriminate H.
Qed.

Lemma newEndpoint_pending_below c h : pending_below (newEndpoint c h).
Proof. split; [done|]. intros k r. simpl. by rewrite lookup_empty. Qed.

(** One call without wrap-around: the msgid is the successor of the
    counter, it is not pending, and no pending msgid exceeds the counter
    afterwards. *)
Lemma Call_no_wrap_step method params ep w res ep' w' :
  closed ep = false →
  Call method params ep w = (res, ep', w') →
  msgid ep' = AddUint32 (msgid ep) 1
  ∧ (pending_below ep → msgid ep + 1 < uint32_max →
       pending ep !! AddUint32 (msgid ep) 1 = None ∧ pending_below ep').
Proof.
  intros Hopen HC. rewrite Call_open in HC by done. simpl in HC. split.
  - destruct (Encode _ _ _) as [[[e|]|r] n1]; by simplify_eq.
  - intros [H0 Hb] Hlt.
    assert (Hid : AddUint32 (msgid ep) 1 = msgid ep + 1).
    { unfold AddUint32. apply Z.mod_small. unfold uint32_max in *. lia. }
    rewrite Hid in *. split.
    + destruct (pending ep !! (msgid ep + 1)) as [r|] eqn:Hr; [|done].
      apply Hb in Hr. lia.
    + assert (Hins : ∀ req k r, <[msgid ep + 1 := req]> (pending ep) !! k = Some r →
                                0 < k <= msgid ep + 1).
      { intros req k r [[<- _]|[_ Hk]]%lookup_insert_Some; [lia|].
        apply Hb in Hk. lia. }
      destruct (Encode _ _ _) as [[[e|]|r] n1]; simplify_eq;
        (split; simpl; [lia|]); eauto.
      intros k r [_ Hk]%lookup_delete_Some. apply Hb in Hk. lia.
Qed.

(** C6, as the code has it.  On an open endpoint [Call] takes as msgid the
    next value of the counter, the old value plus one modulo 2^32.  A call
    that ends suspended has stored its new request under that msgid,
    replacing whatever was stored there.  There is no collision check: how
    the call ends does not depend on the pending table.  As long as the
    counter has not wrapped around (every pending msgid lies in
    [1, msgid] and [msgid + 1 < 2^32]) the msgid is not pending at the
    moment of insertion, and this situation is preserved. *)
Theorem Call_msgid_allocation method params ep w res ep' w' :
  closed ep = false →
  Call method params ep w = (res, ep', w') →
  msgid ep' = AddUint32 (msgid ep) 1
  ∧ (∀ req, res = Done (Blocked req) →
       req = length (reqs w)
       ∧ pending ep' = <[AddUint32 (msgid ep) 1 := req]> (pending ep))
  ∧ (∀ table, (Call method params (set_pending ep table) w).1.1 = res)
  ∧ (pending_below ep → msgid ep + 1 < uint32_max →
       pending ep !! AddUint32 (msgid ep) 1 = None ∧ pending_below ep').
Proof.
  intros Hopen HC.
  destruct (Call_no_wrap_step _ _ _ _ _ _ _ Hopen HC) as [Hid Hinv].
  split; [done|]. split; [|split; [|done]].
  - rewrite Call_open in HC by done. simpl in HC. intros req ->.
    destruct (Encode _ _ _) as [[[e|]|r] n1]; by simplify_eq.
  - rewrite Call_open in HC by done. simpl in HC.
    intros table. rewrite Call_open by done. simpl.
    destruct (Encode _ _ _) as [[[e|]|r] n1]; by simplify_eq.
Qed.

Lemma Call_msgid_allocation_witness :
  msgid ep1 = AddUint32 (msgid ep0) 1
  ∧ pending ep0 !! AddUint32 (msgid ep0) 1 = None
  ∧ pending_below ep1.
Proof.
  pose proof (Call_msgid_allocation "m" [] ep0 w0 (Done (Blocked 0%nat)) ep1 w1
                eq_refl eq_refl) as (H1 & _ & _ & H4).
  exact (conj H1 (H4 (newEndpoint_pending_below _ _) eq_refl)).
Defined.

(** C6, counterexample.  With the counter at 0 and the call with msgid 1
    still pending, the next [Call] takes msgid 1 again; it is suspended
    like any other call, no fault is reported, and the pending table now
    holds the new request under the key 1 in place of the old one. *)
Lemma Call_reuses_pending_msgid :
  ¬ (∀ method params ep w res ep' w' old,
       closed ep = false →
       Call method params ep w = (res, ep', w') →
       pending ep !! AddUint32 (msgid ep) 1 = Some old →
       (∀ req, res ≠ Done (Blocked req)) ∧ pending ep' !! AddUint32 (msgid ep) 1 = Some old).
Proof.
  intros H.
  destruct (H "m" [] ep_wrapped w1 _ _ _ 0%nat eq_refl eq_refl eq_refl) as [Hres _].
  by apply (Hres 1%nat).
Qed.

Lemma Call_keeps_closed method params ep w :
  closed (Call method params ep w).1.2 = closed ep.
Proof.
  destruct (closed ep) eqn:Hc.
  - by rewrite Call_closed.
  - rewrite Call_open by done. cbv zeta.
    by destruct (Encode _ _ _) as [[[e|]|r] n1].
Qed.

(** From a state without wrap-around, and so from a new endpoint, no call
    takes a pending msgid as long as the counter stays below 2^32. *)
Lemma Calls_no_wrap method params k :
  ∀ ep w,
    closed ep = false → pending_below ep → msgid ep + Z.of_nat k < uint32_max →
    pending_below (Calls k method params ep w).1
    ∧ msgid (Calls k method params ep w).1 = msgid ep + Z.of_nat k.
Proof.
  induction k as [|k IH]; intros ep w Hopen Hb Hlt.
  - simpl. split; [done|lia].
  - cbn [Calls].
    pose proof (Call_keeps_closed method params ep w) as Hc.
    destruct (Call method params ep w) as [[res ep'] w'] eqn:HC.
    simpl in Hc.
    destruct (Call_no_wrap_step method params ep w res ep' w' Hopen HC)
      as (Hid & Hinv).
    destruct Hinv as [_ Hb']; [done|lia|].
    assert (Hm : msgid ep' = msgid ep + 1).
    { rewrite Hid. unfold AddUint32. apply Z.mod_small.
      destruct Hb as [H0 _]. lia. }
    destruct (IH ep' w') as [H1 H2]; [congruence|done|lia|].
    split; [done|]. rewrite H2. lia.
Qed.

(** The states of the two counterexamples are reached by the code: after
    one suspended call, 2^32 - 1 calls whose writes fail bring the counter
    back to 0 and leave the pending table alone. *)
Lemma Calls_failing method params k :
  ∀ ep w id c e,
    closed ep = false → conn ep = Some id →
    conns w !! id = Some c → wfault c = Some e → nclose c = 0%nat →
    0 <= msgid ep < uint32_max →
    (∀ j, 1 <= j <= Z.of_nat k →
          pending ep !! ((msgid ep + j) mod uint32_max) = None) →
    ∃ garbage,
      length garbage = k
      ∧ Calls k method params ep w
        = (set_msgid ep ((msgid ep + Z.of_nat k) mod uint32_max),
           mkWorld (conns w) (reqs w ++ garbage)).
Proof.
  induction k as [|k IH]; intros ep w id c e Hopen Hconn Hc He Hn Hm Hfree.
  - exists []. split; [done|]. simpl.
    rewrite Z.add_0_r, Z.mod_small, app_nil_r by done.
    by destruct ep, w.
  - assert (Hid : pending ep !! AddUint32 (msgid ep) 1 = None).
    { apply Hfree. lia. }
    cbn [Calls]. rewrite Call_open by done. cbv zeta.
    rewrite Hconn, (Encode_fault id c e) by done.
    rewrite delete_id by done.
    edestruct (IH (set_pending (set_msgid ep (AddUint32 (msgid ep) 1)) (pending ep))
                 (mkWorld (conns w)
                    (reqs w ++ [mkRequest ChOpen (AddUint32 (msgid ep) 1) VNil None]))
                 id c e) as (g & Hg & ->); try done.
    + simpl. unfold AddUint32, uint32_max. apply Z.mod_pos_bound. lia.
    + intros j Hj. simpl. unfold AddUint32.
      rewrite Zplus_mod_idemp_l, <- Z.add_assoc. apply Hfree. lia.
    + eexists (_ :: g). split; [simpl; by rewrite Hg|].
      simpl. unfold AddUint32, set_msgid. simpl.
      rewrite Zplus_mod_idemp_l, <- Z.add_assoc, <- app_assoc.
      repeat f_equal. lia.
Qed.

Lemma ep_wrapped_reachable :
  Call "m" [] ep0 w0 = (Done (Blocked 0%nat), ep1, w1)
  ∧ ∃ garbage,
      Calls (Z.to_nat (uint32_max - 1)) "m" [] ep1 w1_broken
      = (ep_wrapped, mkWorld (conns w1_broken) (reqs w1_broken ++ garbage)).
Proof.
  split; [reflexivity|].
  assert (HK : Z.of_nat (Z.to_nat (uint32_max - 1)) = uint32_max - 1).
  { apply Z2Nat.id. unfold uint32_max. lia. }
  generalize dependent (Z.to_nat (uint32_max - 1)). intros K HK.
  destruct (Calls_failing "m" [] K ep1 w1_broken 0%nat
              (mkConn [env1] (Some "i/o timeout") 0) "i/o timeout")
    as (g & _ & Hg).
  - reflexivity.
  - reflexivity.
  - reflexivity.
  - reflexivity.
  - reflexivity.
  - unfold uint32_max. simpl. lia.
  - intros j Hj. rewrite HK in Hj.
    change (pending ep1) with ({[ 1 := 0%nat ]} : gmap Z reqptr).
    apply lookup_singleton_ne. change (msgid ep1) with 1.
    unfold uint32_max in *.
    destruct (decide (j = 2 ^ 32 - 1)) as [->|Hne]; [by vm_compute|].
    rewrite Z.mod_small by lia. lia.
  - exists g. rewrite Hg, HK. reflexivity.
Qed.

(** Whatever the failed calls left in the request store, the next call
    on the wrapped endpoint takes msgid 1 again. *)
Lemma ep_wrapped_collides garbage (n : net) :
  ∃ res ep' w',
    Call "m" [] ep_wrapped (mkWorld n (reqs w1 ++ garbage)) = (res, ep', w')
    ∧ msgid ep' = 1 ∧ pending ep_wrapped !! msgid ep' = Some 0%nat
    ∧ pending ep' !! 1 ≠ Some 0%nat.
Proof.
  rewrite Call_open by done. cbv zeta.
  destruct (Encode _ _ _) as [[[e|]|r] n1]; eexists _, _, _;
    (split; [reflexivity|]); simpl; (split; [done|]); (split; [done|]).
  - change (AddUint32 0 1) with 1. by rewrite lookup_delete_eq.
  - change (AddUint32 0 1) with 1. rewrite lookup_insert_eq. intros [=].
  - change (AddUint32 0 1) with 1. rewrite lookup_insert_eq. intros [=].
Qed.

(** * The dispatch loop *)

Lemma Reading_is_identity ch ep w : Reading ch ep w = (None, ep, w).
Proof. reflexivity. Qed.

(** C1, on the code.  On a new [ServerConn] a call is issued and is
    suspended on its request; when [Serve] then runs the dispatch loop and
    [Reading] returns, it returns [nil], the endpoint is neither closed
    nor given a terminal error, the request is still in the pending table
    and its [done] channel is still open: the caller stays suspended.  On
    the endpoint itself this holds whatever close signal [Reading] is
    given. *)
Theorem Reading_leaves_calls_suspended method params :
  (∃ req r sc w e sc' w',
     ServerConn_Call method params (NewServerConn (Some 0%nat) 7%nat) w0
     = (Done (Blocked req), sc, w)
     ∧ Serve sc w = (e, sc', w')
     ∧ e = None ∧ closed (sc_ep sc') = false ∧ err (sc_ep sc') = None
     ∧ pending (sc_ep sc') !! 1 = Some req
     ∧ reqs w' !! req = Some r
     ∧ chan_recv_ready (done r) = false)
  ∧ (∀ ch, ∃ req r ep w e ep' w',
       Call method params ep0 w0 = (Done (Blocked req), ep, w)
       ∧ Reading ch ep w = (e, ep', w')
       ∧ e = None ∧ closed ep' = false ∧ err ep' = None
       ∧ pending ep' !! 1 = Some req
       ∧ reqs w' !! req = Some r
       ∧ chan_recv_ready (done r) = false).
Proof.
  split.
  - eexists _, _, _, _, _, _, _. split; [reflexivity|].
    split; [reflexivity|]. by cbn.
  - intros ch. eexists _, _, _, _, _, _, _. split; [reflexivity|].
    split; [reflexivity|]. by cbn.
Qed.

(** * The connection wrappers *)

(** C10, on the code.  [NewServerConn] leaves the [closed] field nil: the
    first [Close] panics in [close] before it reaches the connection, and
    [Serve] hands the nil channel to [Reading]. *)
Theorem NewServerConn_closed_is_nil conn mpk w :
  sc_closed (NewServerConn conn mpk) = ChNil
  ∧ ServerConn_Close (NewServerConn conn mpk) w
    = (Panic "close of nil channel", NewServerConn conn mpk, w)
  ∧ Serve (NewServerConn conn mpk) w
    = (let '(e, ep, w') := Reading ChNil (newEndpoint conn mpk) w in
       (e, mkServerConn ep conn ChNil, w')).
Proof. done. Qed.

(** The same holds for [NewClient]. *)
Lemma NewClient_closed_is_nil conn h w :
  c_closed (NewClient conn h w).1 = ChNil
  ∧ Client_Close (NewClient conn h w).1 w
    = (Panic "close of nil channel", (NewClient conn h w).1, w).
Proof. done. Qed.

(** [Close] of a wrapper never sets the [closed] flag of its endpoint. *)
Lemma Close_keeps_endpoint_flag sc c w :
  closed (sc_ep (ServerConn_Close sc w).1.2) = closed (sc_ep sc)
  ∧ closed (c_ep (Client_Close c w).1.2) = closed (c_ep c).
Proof.
  unfold ServerConn_Close, Client_Close.
  destruct (chan_close (sc_closed sc)), (chan_close (c_closed c)); simpl;
    repeat (destruct (Close_conn _ _)); done.
Qed.




(** C5, on the code.  The wrappers call [endpoint.Call] and
    [endpoint.Notify] with the slice [params] as the only variadic
    argument: what reaches the endpoint is the one-element list holding
    that slice.  For [Call("Add", 2, 3)] through a new [Client] the wire
    carries [0, 1, "Add", [[2, 3]]], where the endpoint's own
    [Call("Add", 2, 3)] writes [0, 1, "Add", [2, 3]]; [ServerConn] and
    [Notify] behave alike. *)
Theorem wrappers_nest_params :
  (∀ method params c w,
     (Client_Call method params c w).1.1 = (Call method [VSlice params] (c_ep c) w).1.1
     ∧ (Client_Call method params c w).2 = (Call method [VSlice params] (c_ep c) w).2)
  ∧ (∀ method params sc w,
     (ServerConn_Call method params sc w).1.1
       = (Call method [VSlice params] (sc_ep sc) w).1.1
     ∧ (ServerConn_Call method params sc w).2
       = (Call method [VSlice params] (sc_ep sc) w).2)
  ∧ conns (Client_Call "Add" [VInt 2; VInt 3] (NewClient (Some 0%nat) 7%nat w0).1 w0).2
      !! 0%nat
    = Some (mkConn [VSlice [VInt 0; VUint32 1; VString "Add";
                            VSlice [VSlice [VInt 2; VInt 3]]]] None 0)
  ∧ conns (ServerConn_Call "Add" [VInt 2; VInt 3] (NewServerConn (Some 0%nat) 7%nat) w0).2
      !! 0%nat
    = Some (mkConn [VSlice [VInt 0; VUint32 1; VString "Add";
                            VSlice [VSlice [VInt 2; VInt 3]]]] None 0)
  ∧ conns (Call "Add" [VInt 2; VInt 3] ep0 w0).2 !! 0%nat
    = Some (mkConn [VSlice [VInt 0; VUint32 1; VString "Add";
                            VSlice [VInt 2; VInt 3]]] None 0)
  ∧ conns (Client_Notify "Log" [VString "x"] (NewClient (Some 0%nat) 7%nat w0).1 w0).2
      !! 0%nat
    = Some (mkConn [VSlice [VInt 2; VString "Log"; VSlice [VSlice [VString "x"]]]] None 0)
  ∧ conns (Notify "Log" [VString "x"] ep0 w0).2 !! 0%nat
    = Some (mkConn [VSlice [VInt 2; VString "Log"; VSlice [VString "x"]]] None 0).
Proof.
  split; [|split].
  - intros method params c w. unfold Client_Call.
    by destruct (Call _ _ _ _) as [[r ep] w'].
  - intros method params sc w. unfold ServerConn_Call.
    by destruct (Call _ _ _ _) as [[r ep] w'].
  - repeat split; reflexivity.
Qed.

(** * The service registry *)

Section RegistryFacts.

Variable methodSet : reflect.Type_ -> list reflect.Method.
Variable Type_String : reflect.Type_ -> string.
Variable Upper : Z -> bool.
Variable argType : reflect.Type_.

(** An exported method with fewer than two explicit arguments makes the
    loop body panic in [mtype.In(2)]. *)
Lemma suitableMethods_body_short m methods :
  reflect.MPkgPath m = "" → (reflect.NumIn (reflect.MType m) <= 2)%nat →
  suitableMethods_body Upper argType m methods = Panic "index out of range".
Proof.
  intros Hexp Hin. unfold suitableMethods_body, reflect.In_.
  rewrite Hexp. simpl.
  rewrite (lookup_ge_None_2 (reflect.ins (reflect.MType m)) 2); [done|].
  unfold reflect.NumIn in Hin. lia.
Qed.

(** A method that is not exported is skipped. *)
Lemma suitableMethods_body_unexported m methods :
  reflect.MPkgPath m ≠ "" →
  suitableMethods_body Upper argType m methods = Done methods.
Proof.
  intros Hne. unfold suitableMethods_body.
  by rewrite bool_decide_eq_false_2.
Qed.

(** The enumeration panics as soon as it meets an exported method with
    fewer than two explicit arguments behind methods that are not
    exported. *)
Lemma suitableMethods_short_panics typ reportErr pre m rest :
  methodSet typ = (pre ++ m :: rest)%list →
  Forall (λ x, reflect.MPkgPath x ≠ "") pre →
  reflect.MPkgPath m = "" → (reflect.NumIn (reflect.MType m) <= 2)%nat →
  suitableMethods methodSet Upper argType typ reportErr = Panic "index out of range".
Proof.
  intros Hms Hpre Hexp Hin. unfold suitableMethods. rewrite Hms. clear Hms.
  generalize (∅ : gmap string methodType).
  induction Hpre as [|x pre Hx _ IH]; intros acc; simpl.
  - by rewrite suitableMethods_body_short.
  - rewrite suitableMethods_body_unexported by done. apply IH.
Qed.

(** What the loop body keeps: the descriptor is stored exactly when the
    method is exported, has a third input that is a pointer to an exported
    or builtin type, and has [error] as its only output; the number of
    inputs beyond the third and the type of the argument are not looked
    at. *)
Lemma suitableMethods_body_long m methods replyType :
  reflect.ins (reflect.MType m) !! 2%nat = Some replyType →
  suitableMethods_body Upper argType m methods =
  Done (if bool_decide (reflect.MPkgPath m = "")
           && bool_decide (reflect.Kind_of replyType = reflect.Ptr)
           && isExportedOrBuiltinType Upper replyType
           && bool_decide (reflect.outs (reflect.MType m) = [typeOfError])
        then <[reflect.MName m := mkMethodType m argType replyType 0]> methods
        else methods).
Proof.
  intros Hin. unfold suitableMethods_body, reflect.In_, reflect.Out, reflect.NumOut.
  rewrite Hin.
  destruct (bool_decide (reflect.MPkgPath m = "")); simpl; [|done].
  destruct (bool_decide (reflect.Kind_of replyType = reflect.Ptr)); simpl; [|done].
  destruct (isExportedOrBuiltinType Upper replyType); simpl; [|done].
  destruct (reflect.outs (reflect.MType m)) as [|o [|o' os]]; simpl.
  - done.
  - destruct (decide (o = typeOfError)) as [->|Hne].
    + by rewrite !bool_decide_eq_true_2.
    + rewrite (bool_decide_eq_false_2 (o = typeOfError)) by done. simpl.
      rewrite bool_decide_eq_false_2; [done|]. by intros [=].
  - by rewrite bool_decide_eq_false_2.
Qed.

(** The helper [register] never answers [nil] in the four cases in which
    registration is to be refused. *)
Lemma register_refuses rcvr (name : string) (useName : bool) ep t s_typ :
  reflect.Indirect_Type rcvr = Done t → reflect.TypeOf rcvr = Some s_typ →
  let sname := if useName then name else reflect.Name t in
  sname = ""
  ∨ (isExported Upper sname = false ∧ useName = false)
  ∨ (∃ sm, serviceMap ep = Some sm ∧ is_Some (sm !! sname))
  ∨ suitableMethods methodSet Upper argType s_typ true = Done ∅ →
  (register methodSet Type_String Upper argType rcvr name useName ep).1 ≠ Done None.
Proof.
  intros Hi Ht sname Hcases. unfold register. rewrite Hi, Ht. fold sname.
  set (ep2 := match serviceMap ep with
              | Some _ => ep
              | None => set_serviceMap ep (Some ∅)
              end).
  assert (Hsm : ∀ sm, serviceMap ep = Some sm → serviceMap ep2 = Some sm).
  { intros sm Hs. subst ep2. by rewrite Hs. }
  destruct (bool_decide (sname = "")) eqn:H1; [done|].
  apply bool_decide_eq_false in H1.
  destruct (negb (isExported Upper sname) && negb useName) eqn:H2; [done|].
  destruct (has_service (serviceMap ep2) sname) eqn:H3; [done|].
  destruct Hcases as [?|[[Hex ->]|[(sm & Hsome & Hin)|Hzero]]]; [done|..].
  - rewrite Hex in H2. done.
  - rewrite (Hsm _ Hsome) in H3. simpl in H3.
    by apply bool_decide_eq_false in H3.
  - rewrite Hzero. rewrite map_size_empty. simpl.
    destruct (suitableMethods _ _ _ (reflect.PtrTo s_typ) false); simpl;
      unfold errors_New; intros [=].
Qed.

End RegistryFacts.

(** C7, on the code.  On the sample program the enumeration of the type
    [Pinger], whose only method is the exported [Ping()], panics in
    [mtype.In(2)] instead of skipping the method; and for [Probe] the
    method [Sum], which takes three explicit arguments, is kept as an RPC
    method. *)
Theorem suitableMethods_misses_arity_check :
  suitableMethods sample_methodSet sample_Upper intT pingerT true
  = Panic "index out of range"
  ∧ ∃ m mt,
      suitableMethods sample_methodSet sample_Upper intT probeT true = Done m
      ∧ m !! "Sum" = Some mt
      ∧ reflect.NumIn (reflect.MType (method mt)) = 4%nat.
Proof.
  split; [reflexivity|].
  eexists _, _. split; [reflexivity|]. split; reflexivity.
Qed.

(** C4, on the code.  The public [Register] answers [nil] for every
    receiver and leaves the endpoint as it was, directly and through both
    wrappers; on the sample program, registering [Arith] twice succeeds
    twice and stores nothing, and a receiver without a name is accepted,
    where the helper [register] accepts the first registration and refuses
    the second one and the nameless receiver. *)
Theorem Register_refuses_nothing :
  (∀ svc ep, Register svc ep = (None, ep))
  ∧ (∀ svc c, Client_Register svc c = (None, c))
  ∧ (∀ svc sc, ServerConn_Register svc sc = (None, sc))
  ∧ (let '(e1, epA) := Register (reflect.VOf arithT) ep0 in
     let '(e2, epB) := Register (reflect.VOf arithT) epA in
     e1 = None ∧ e2 = None ∧ serviceMap epB = Some ∅)
  ∧ (Register (reflect.VOf (reflect.TBase reflect.Struct "" "")) ep0).1 = None
  ∧ (let reg := register sample_methodSet sample_String sample_Upper intT in
     let '(r1, epA) := reg (reflect.VOf arithT) "" false ep0 in
     let '(r2, epB) := reg (reflect.VOf arithT) "" false epA in
     r1 = Done None
     ∧ r2 = Done (Some "rpc: service already defined: Arith")
     ∧ (∃ r, (reg (reflect.VOf (reflect.TBase reflect.Struct "" "")) "" false ep0).1
             = Done (Some r))).
Proof.
  split; [done|]. split; [by intros svc []|]. split; [by intros svc []|].
  split; [done|]. split; [done|].
  vm_compute. split; [done|]. split; [done|]. eauto.
Qed.

(** * Further properties of the registry *)

(** X1.  For a name that starts with an ASCII byte, [isExported] looks at
    that byte only and holds exactly when it is one of [A] to [Z]; the
    table of the upper-case letters above Latin-1 is not consulted. *)
Theorem isExported_ascii (Upper : Z → bool) (a : ascii) (rest : string) :
  utf8.byte_of a < 128 →
  isExported Upper (String.String a rest) = ascii_upper (utf8.byte_of a).
Proof.
  intros Hlt. unfold isExported, utf8.DecodeRuneInString.
  assert (Hb : ∃ tl, utf8.bytes4 (String.String a rest) = utf8.byte_of a :: tl).
  { destruct rest as [|b [|c [|d r]]]; simpl; eauto. }
  destruct Hb as [tl ->].
  assert (0 <= utf8.byte_of a) by (unfold utf8.byte_of; lia).
  rewrite (proj2 (Z.ltb_lt _ _) Hlt).
  unfold unicode.IsUpper, unicode.MaxLatin1, unicode.upperLatin1, ascii_upper.
  rewrite (proj2 (Z.leb_le _ _)) by lia.
  rewrite (proj2 (Z.leb_gt 192 _)) by lia.
  rewrite (proj2 (Z.leb_gt 216 _)) by lia.
  simpl. by rewrite !orb_false_r.
Qed.

Lemma isExported_ascii_witness :
  isExported sample_Upper "Arith" = true ∧ isExported sample_Upper "arith" = false.
Proof.
  split.
  - exact (isExported_ascii sample_Upper "A" "rith" eq_refl).
  - exact (isExported_ascii sample_Upper "a" "rith" eq_refl).
Defined.

(** X2.  [isExportedOrBuiltinType] sees through any number of pointers:
    its answer is the one for the type under the pointers, which passes
    when its package path is empty (a builtin or unnamed type) or its name
    is exported.  In particular [*T] passes exactly when [T] does, and
    every pointer chain that ends in a type without package path passes. *)
Theorem isExportedOrBuiltinType_strips (Upper : Z → bool) (t : reflect.Type_) :
  isExportedOrBuiltinType Upper t
  = isExported Upper (reflect.Name (strip_pointers t))
    || bool_decide (reflect.PkgPath (strip_pointers t) = "")
  ∧ isExportedOrBuiltinType Upper (reflect.PtrTo t) = isExportedOrBuiltinType Upper t
  ∧ (reflect.PkgPath (strip_pointers t) = "" → isExportedOrBuiltinType Upper t = true).
Proof.
  assert (H : isExportedOrBuiltinType Upper t
              = isExported Upper (reflect.Name (strip_pointers t))
                || bool_decide (reflect.PkgPath (strip_pointers t) = "")).
  { induction t as [k nm pkg|nm pkg e IH]; simpl; [done|exact IH]. }
  split; [exact H|]. split; [done|].
  intros Hp. rewrite H, Hp. apply orb_true_r.
Qed.

Lemma isExportedOrBuiltinType_strips_witness :
  isExportedOrBuiltinType sample_Upper (reflect.PtrTo (reflect.PtrTo intT)) = true.
Proof.
  exact (proj2 (proj2 (isExportedOrBuiltinType_strips sample_Upper
                         (reflect.PtrTo (reflect.PtrTo intT)))) eq_refl).
Defined.

(** The loop body, by the shape of the method. *)
Lemma suitableMethods_body_cases Upper argType m acc :
  (short_exported m = true
   ∧ suitableMethods_body Upper argType m acc = Panic "index out of range")
  ∨ (short_exported m = false
     ∧ suitableMethods_body Upper argType m acc
       = Done (match descriptor argType m with
               | Some d => if passes Upper m then <[reflect.MName m := d]> acc else acc
               | None => acc
               end)).
Proof.
  unfold short_exported, passes, descriptor.
  destruct (decide (reflect.MPkgPath m = "")) as [Hexp|Hexp].
  - rewrite (bool_decide_eq_true_2 _ Hexp). simpl.
    destruct (reflect.NumIn (reflect.MType m) <=? 2)%nat eqn:Hn.
    + left. split; [done|]. apply suitableMethods_body_short; [done|].
      by apply Nat.leb_le.
    + right. split; [done|]. apply Nat.leb_gt in Hn.
      destruct (lookup_lt_is_Some_2 (reflect.ins (reflect.MType m)) 2) as [rt Hrt].
      { unfold reflect.NumIn in Hn. lia. }
      rewrite Hrt. rewrite (suitableMethods_body_long Upper argType m acc rt Hrt).
      by rewrite (bool_decide_eq_true_2 _ Hexp).
  - rewrite (bool_decide_eq_false_2 _ Hexp). simpl. right. split; [done|].
    rewrite suitableMethods_body_unexported by done.
    by destruct (reflect.ins (reflect.MType m) !! 2%nat).
Qed.

Lemma suitableMethods_loop_panics Upper argType ms :
  ∀ acc, Exists (λ m, short_exported m = true) ms →
         suitableMethods_loop Upper argType ms acc = Panic "index out of range".
Proof.
  induction ms as [|m ms IH]; intros acc Hex; [by inversion Hex|].
  simpl.
  destruct (suitableMethods_body_cases Upper argType m acc) as [[_ ->]|[Hs ->]]; [done|].
  apply IH. inversion Hex; subst; [congruence|done].
Qed.

Lemma suitableMethods_loop_done Upper argType ms :
  ∀ acc, Forall (λ m, short_exported m = false) ms →
    ∃ res, suitableMethods_loop Upper argType ms acc = Done res
      ∧ (∀ name mt, res !! name = Some mt →
           acc !! name = Some mt
           ∨ ∃ m, m ∈ ms ∧ passes Upper m = true ∧ reflect.MName m = name
                  ∧ descriptor argType m = Some mt)
      ∧ (∀ name, is_Some (acc !! name) → is_Some (res !! name))
      ∧ (∀ m, m ∈ ms → passes Upper m = true → is_Some (res !! reflect.MName m)).
Proof.
  induction ms as [|m ms IH]; intros acc Hall.
  - exists acc. simpl. split; [done|]. split; [eauto|]. split; [done|].
    intros m Hm. by apply not_elem_of_nil in Hm.
  - apply Forall_cons in Hall as [Hm Hall]. simpl.
    destruct (suitableMethods_body_cases Upper argType m acc) as [[Hs _]|[_ ->]];
      [congruence|].
    set (acc' := match descriptor argType m with
                 | Some d => if passes Upper m then <[reflect.MName m := d]> acc else acc
                 | None => acc
                 end).
    destruct (IH acc' Hall) as (res & Hres & Hsound & Hmono & Hcompl).
    exists res. split; [done|].
    assert (Hacc' : ∀ name mt, acc' !! name = Some mt →
              acc !! name = Some mt
              ∨ (passes Upper m = true ∧ reflect.MName m = name
                 ∧ descriptor argType m = Some mt)).
    { intros name mt. subst acc'.
      destruct (descriptor argType m) as [d|]; [|eauto].
      destruct (passes Upper m); [|eauto].
      intros [[<- <-]|[_ ?]]%lookup_insert_Some; eauto. }
    assert (Hmono' : ∀ name, is_Some (acc !! name) → is_Some (acc' !! name)).
    { intros name Hn. subst acc'.
      destruct (descriptor argType m) as [d|]; [|done].
      destruct (passes Upper m); [|done].
      rewrite lookup_insert_is_Some'. eauto. }
    split; [|split].
    + intros name mt Hl. destruct (Hsound name mt Hl) as [Ha|(m' & Hin & ?)].
      * destruct (Hacc' name mt Ha) as [?|(? & ? & ?)]; [eauto|].
        right. exists m. split; [apply elem_of_cons; eauto|done].
      * right. exists m'. split; [apply elem_of_cons; eauto|done].
    + eauto.
    + intros m' [->|Hin]%elem_of_cons Hp; [|eauto].
      apply Hmono. subst acc'.
      assert (Hd : is_Some (descriptor argType m)).
      { unfold passes in Hp. unfold descriptor.
        destruct (reflect.ins (reflect.MType m) !! 2%nat); [eauto|].
        by rewrite andb_false_r in Hp. }
      destruct Hd as [d ->]. rewrite Hp. rewrite lookup_insert_eq. eauto.
Qed.

(** X3.  [suitableMethods] panics exactly when the method set of the type
    holds an exported method with fewer than three inputs (the receiver
    and at most one argument); the panic is the index error of
    [mtype.In(2)].  No other method makes it panic: [Out(0)] is reached
    only after [NumOut] was found to be 1. *)
Theorem suitableMethods_panics_iff methodSet Upper argType typ reportErr r :
  suitableMethods methodSet Upper argType typ reportErr = Panic r
  ↔ r = "index out of range"
    ∧ ∃ m, m ∈ methodSet typ ∧ reflect.MPkgPath m = ""
           ∧ (reflect.NumIn (reflect.MType m) <= 2)%nat.
Proof.
  unfold suitableMethods.
  destruct (decide (Exists (λ m, short_exported m = true) (methodSet typ)))
    as [Hex|Hnex].
  - rewrite (suitableMethods_loop_panics Upper argType _ ∅ Hex). split.
    + intros [= <-]. split; [done|].
      apply Exists_exists in Hex as (m & Hin & Hs). exists m.
      unfold short_exported in Hs. apply andb_true_iff in Hs as [H1 H2].
      apply bool_decide_eq_true in H1. apply Nat.leb_le in H2. done.
    + by intros [-> _].
  - assert (Hall : Forall (λ m, short_exported m = false) (methodSet typ)).
    { apply Forall_forall. intros m Hin.
      destruct (short_exported m) eqn:Hs; [|done].
      exfalso. apply Hnex. apply Exists_exists. eauto. }
    destruct (suitableMethods_loop_done Upper argType _ ∅ Hall) as (res & -> & _).
    split; [done|]. intros [_ (m & Hin & Hexp & Hn)]. exfalso. apply Hnex.
    apply Exists_exists. exists m. split; [done|]. unfold short_exported.
    rewrite bool_decide_eq_true_2 by done. by apply Nat.leb_le.
Qed.

Lemma suitableMethods_panics_iff_witness :
  suitableMethods sample_methodSet2 sample_Upper intT pingerT true
  = Panic "index out of range".
Proof.
  apply (proj2 (suitableMethods_panics_iff sample_methodSet2 sample_Upper intT
                  pingerT true "index out of range")).
  split; [reflexivity|]. exists Ping_method.
  split; [|split; [reflexivity|unfold reflect.NumIn; simpl; lia]].
  apply elem_of_cons. right. apply elem_of_cons. by left.
Defined.

(** X4.  When [suitableMethods] returns, its map holds exactly the names
    of the methods of the type that are exported, have a third input that
    is a pointer to an exported or builtin type, and have [error] as their
    only output.  Each descriptor carries such a method under its own
    name, with that third input as [ReplyType], [argType] as [ArgType] and
    a call count of 0. *)
Theorem suitableMethods_result methodSet Upper argType typ reportErr res :
  suitableMethods methodSet Upper argType typ reportErr = Done res →
  (∀ name mt, res !! name = Some mt →
     method mt ∈ methodSet typ ∧ passes Upper (method mt) = true
     ∧ reflect.MName (method mt) = name
     ∧ reflect.ins (reflect.MType (method mt)) !! 2%nat = Some (ReplyType mt)
     ∧ ArgType mt = argType ∧ numCalls mt = 0%nat)
  ∧ (∀ m, m ∈ methodSet typ → passes Upper m = true →
       is_Some (res !! reflect.MName m)).
Proof.
  unfold suitableMethods. intros Hres.
  assert (Hall : Forall (λ m, short_exported m = false) (methodSet typ)).
  { apply Forall_forall. intros m Hin.
    destruct (short_exported m) eqn:Hs; [|done].
    rewrite suitableMethods_loop_panics in Hres; [done|].
    apply Exists_exists. eauto. }
  destruct (suitableMethods_loop_done Upper argType _ ∅ Hall)
    as (res' & Hres' & Hsound & _ & Hcompl).
  rewrite Hres' in Hres. injection Hres as <-. split; [|done].
  intros name mt Hl.
  destruct (Hsound name mt Hl) as [He|(m & Hin & Hp & Hn & Hd)].
  { by rewrite lookup_empty in He. }
  unfold descriptor in Hd.
  destruct (reflect.ins (reflect.MType m) !! 2%nat) as [rt|] eqn:Hrt; [|done].
  injection Hd as <-. simpl. done.
Qed.

Lemma suitableMethods_result_witness :
  ∃ res, suitableMethods sample_methodSet2 sample_Upper intT mixedT true = Done res
    ∧ is_Some (res !! "Add").
Proof.
  eexists. split; [reflexivity|].
  apply (proj2 (suitableMethods_result sample_methodSet2 sample_Upper intT mixedT true
                  _ eq_refl) Add_method).
  - apply elem_of_cons. right. apply elem_of_cons. by left.
  - reflexivity.
Defined.

(** [register] on a non-nil receiver, with the nil map replaced first. *)
Lemma register_VOf methodSet Type_String Upper argType ty name useName ep :
  let ep2 := set_serviceMap ep (Some (services ep)) in
  let sname := service_name ty name useName in
  register methodSet Type_String Upper argType (reflect.VOf ty) name useName ep =
  if bool_decide (sname = "") then
    (Done (Some ("rpc.Register: no service name for type " ++ Type_String ty)), ep2)
  else if negb (isExported Upper sname) && negb useName then
    (Done (Some ("rpc.Register: type " ++ sname ++ " is not exported")), ep2)
  else if bool_decide (is_Some (services ep !! sname)) then
    (Done (Some ("rpc: service already defined: " ++ sname)), ep2)
  else
    match suitableMethods methodSet Upper argType ty true with
    | Panic r => (Panic r, ep2)
    | Done m =>
        if (size m =? 0)%nat then
          match suitableMethods methodSet Upper argType (reflect.PtrTo ty) false with
          | Panic r => (Panic r, ep2)
          | Done m2 =>
              (Done (Some ("rpc.Register: type " ++ sname
                           ++ (if (size m2 =? 0)%nat
                               then " has no exported methods of suitable type"
                               else " has no exported methods of suitable type (hint: pass a pointer to value of that type)"))),
               ep2)
          end
        else
          (Done None,
           set_serviceMap ep
             (Some (<[sname := mkService sname (reflect.VOf ty) (Some ty) m ∅]>
                      (services ep))))
    end.
Proof.
  intros ep2 sname. unfold register.
  assert (Hi : reflect.Indirect_Type (reflect.VOf ty) = Done (indirect ty)).
  { by destruct ty. }
  rewrite Hi. cbn [reflect.TypeOf]. fold (service_name ty name useName). fold sname.
  assert (Hep : match serviceMap ep with
                | Some _ => ep
                | None => set_serviceMap ep (Some ∅)
                end = ep2).
  { subst ep2. unfold services, set_serviceMap.
    destruct ep as [c cl e i p h [sm|]]; done. }
  rewrite Hep.
  assert (Hsm : serviceMap ep2 = Some (services ep)) by done.
  rewrite Hsm. cbn [has_service store_service s_name].
  destruct (bool_decide (sname = "")); [done|].
  destruct (negb (isExported Upper sname) && negb useName); [done|].
  destruct (bool_decide (is_Some (services ep !! sname))); [done|].
  destruct (suitableMethods methodSet Upper argType ty true) as [m|r]; [|done].
  destruct (size m =? 0)%nat; [|done].
  destruct (suitableMethods methodSet Upper argType (reflect.PtrTo ty) false)
    as [m2|r]; [|done].
  unfold errors_New. by destruct (size m2 =? 0)%nat.
Qed.

Lemma register_nil methodSet Type_String Upper argType rcvr name useName ep :
  rcvr = reflect.VNilInterface ∨ (∃ t, rcvr = reflect.VNilPtr t) →
  register methodSet Type_String Upper argType rcvr name useName ep
  = (Panic "reflect: call of reflect.Value.Type on zero Value",
     set_serviceMap ep (Some (services ep))).
Proof.
  intros Hr. unfold register.
  assert (Hi : reflect.Indirect_Type rcvr
               = Panic "reflect: call of reflect.Value.Type on zero Value").
  { by destruct Hr as [->|[t ->]]. }
  rewrite Hi. f_equal. unfold services, set_serviceMap.
  destruct ep as [c cl e i p h [sm|]]; done.
Qed.

Lemma size_zero_empty {A} (m : gmap string A) : (size m =? 0)%nat = true ↔ m = ∅.
Proof. rewrite Nat.eqb_eq. apply map_size_empty_iff. Qed.

(** When and how [register] succeeds on a non-nil receiver. *)
Lemma register_success methodSet Type_String Upper argType ty name useName ep ep' :
  register methodSet Type_String Upper argType (reflect.VOf ty) name useName ep
  = (Done None, ep')
  ↔ service_name ty name useName ≠ ""
    ∧ (isExported Upper (service_name ty name useName) = true ∨ useName = true)
    ∧ services ep !! service_name ty name useName = None
    ∧ ∃ m, suitableMethods methodSet Upper argType ty true = Done m ∧ m ≠ ∅
           ∧ ep' = set_serviceMap ep
                     (Some (<[service_name ty name useName :=
                               mkService (service_name ty name useName)
                                 (reflect.VOf ty) (Some ty) m ∅]> (services ep))).
Proof.
  rewrite register_VOf. cbv zeta.
  set (sname := service_name ty name useName).
  destruct (bool_decide (sname = "")) eqn:H1.
  { apply bool_decide_eq_true in H1. split; [done|]. by intros [? _]. }
  apply bool_decide_eq_false in H1.
  destruct (negb (isExported Upper sname) && negb useName) eqn:H2.
  { apply andb_true_iff in H2 as [H2 H2']. apply negb_true_iff in H2, H2'.
    split; [done|]. intros (_ & [?|?] & _); congruence. }
  destruct (bool_decide (is_Some (services ep !! sname))) eqn:H3.
  { apply bool_decide_eq_true in H3 as [x Hx]. split; [done|].
    intros (_ & _ & ? & _). congruence. }
  apply bool_decide_eq_false in H3.
  assert (Hnone : services ep !! sname = None).
  { destruct (services ep !! sname) eqn:?; [|done]. exfalso. apply H3. eauto. }
  assert (Hexp : isExported Upper sname = true ∨ useName = true).
  { apply andb_false_iff in H2 as [H2|H2]; apply negb_false_iff in H2; eauto. }
  destruct (suitableMethods methodSet Upper argType ty true) as [m|r].
  - destruct (size m =? 0)%nat eqn:Hsz.
    + apply size_zero_empty in Hsz. subst m.
      split.
      * destruct (suitableMethods _ _ _ (reflect.PtrTo ty) false); by intros [=].
      * intros (_ & _ & _ & m & [= <-] & Hne & _). done.
    + split.
      * intros [= <-]. repeat split; try done.
        exists m. split; [done|]. split; [|done].
        intros ->. by rewrite map_size_empty in Hsz.
      * intros (_ & _ & _ & m' & [= <-] & _ & ->). done.
  - split; [done|]. by intros (_ & _ & _ & m & [=] & _).
Qed.

(** X5.  For a non-nil receiver, the helper [register] answers [nil]
    exactly when the service name (the explicit name if one is used, else
    the name of the receiver's type with one pointer taken off) is not
    empty, is exported or was supplied explicitly, is not registered yet,
    and [suitableMethods] returns at least one method for the receiver's
    own type. *)
Theorem register_succeeds_iff methodSet Type_String Upper argType ty name useName ep :
  (register methodSet Type_String Upper argType (reflect.VOf ty) name useName ep).1
  = Done None
  ↔ service_name ty name useName ≠ ""
    ∧ (isExported Upper (service_name ty name useName) = true ∨ useName = true)
    ∧ services ep !! service_name ty name useName = None
    ∧ ∃ m, suitableMethods methodSet Upper argType ty true = Done m ∧ m ≠ ∅.
Proof.
  destruct (register _ _ _ _ _ _ _ ep) as [r ep'] eqn:Hreg. simpl. split.
  - intros ->. apply register_success in Hreg as (? & ? & ? & m & ? & ? & _).
    eauto 10.
  - intros (H1 & H2 & H3 & m & Hm & Hne).
    assert (Hs : register methodSet Type_String Upper argType (reflect.VOf ty) name
                   useName ep
                 = (Done None,
                    set_serviceMap ep
                      (Some (<[service_name ty name useName :=
                                mkService (service_name ty name useName)
                                  (reflect.VOf ty) (Some ty) m ∅]> (services ep))))).
    { apply register_success. eauto 10. }
    rewrite Hs in Hreg. by injection Hreg as <- _.
Qed.

Lemma register_succeeds_iff_witness :
  (register sample_methodSet sample_String sample_Upper intT
     (reflect.VOf arithT) "calc" true ep0).1 = Done None.
Proof.
  apply (proj2 (register_succeeds_iff sample_methodSet sample_String sample_Upper intT
                  arithT "calc" true ep0)).
  split; [discriminate|]. split; [right; reflexivity|]. split; [reflexivity|].
  eexists. split; [reflexivity|]. intros H.
  apply (f_equal (λ m, m !! "Add")) in H. vm_compute in H. discriminate H.
Defined.

(** X6.  A successful [register] stores one service under the derived
    name: it holds that name, the receiver, the receiver's type and the
    method map of [suitableMethods] for that type, with an empty notify
    map.  The name was free before, every other registered service is
    kept, and nothing else of the endpoint changes. *)
Theorem register_stores_service methodSet Type_String Upper argType ty name useName ep ep' :
  register methodSet Type_String Upper argType (reflect.VOf ty) name useName ep
  = (Done None, ep') →
  ∃ m, suitableMethods methodSet Upper argType ty true = Done m ∧ m ≠ ∅
    ∧ services ep !! service_name ty name useName = None
    ∧ services ep' !! service_name ty name useName
      = Some (mkService (service_name ty name useName) (reflect.VOf ty) (Some ty) m ∅)
    ∧ (∀ other, other ≠ service_name ty name useName →
                services ep' !! other = services ep !! other)
    ∧ ep' = set_serviceMap ep (serviceMap ep').
Proof.
  intros Hreg. apply register_success in Hreg as (H1 & H2 & H3 & m & Hm & Hne & ->).
  exists m. repeat split; try done.
  - unfold services at 1. simpl. apply lookup_insert_eq.
  - intros other Hne'. unfold services at 1. simpl. by apply lookup_insert_ne.
Qed.

Lemma register_stores_service_witness :
  ∃ ep' m,
    register sample_methodSet sample_String sample_Upper intT
      (reflect.VOf (reflect.PtrTo arithT)) "" false ep0 = (Done None, ep')
    ∧ services ep' !! "Arith"
      = Some (mkService "Arith" (reflect.VOf (reflect.PtrTo arithT))
                (Some (reflect.PtrTo arithT)) m ∅).
Proof.
  eexists _, _. split; [reflexivity|].
  destruct (register_stores_service sample_methodSet sample_String sample_Upper intT
              (reflect.PtrTo arithT) "" false ep0 _ eq_refl)
    as (m & Hm & _ & _ & Hl & _).
  injection Hm as <-. exact Hl.
Defined.

(** X7.  Whatever [register] answers, it leaves the connection, the closed
    flag, the stored error, the msgid counter, the pending table and the
    codec handle of the endpoint alone and leaves the service map non-nil;
    unless it answers [nil], the registered services are the ones from
    before. *)
Theorem register_preserves methodSet Type_String Upper argType rcvr name useName ep :
  let res := register methodSet Type_String Upper argType rcvr name useName ep in
  res.2 = set_serviceMap ep (serviceMap res.2)
  ∧ serviceMap res.2 ≠ None
  ∧ (res.1 ≠ Done None → services res.2 = services ep).
Proof.
  destruct rcvr as [|t|ty].
  - cbv zeta. rewrite register_nil by eauto. done.
  - cbv zeta. rewrite register_nil by eauto. done.
  - cbv zeta. rewrite register_VOf. cbv zeta.
    repeat match goal with
           | |- context [if ?b then _ else _] => destruct b
           | |- context [match suitableMethods ?a ?b ?c ?d ?e with _ => _ end] =>
               destruct (suitableMethods a b c d e)
           end; done.
Qed.

Lemma register_preserves_witness :
  services (register sample_methodSet sample_String sample_Upper intT
              (reflect.VOf (reflect.TBase reflect.Struct "arith" "main")) "" false ep0).2
  = services ep0.
Proof.
  apply (proj2 (proj2 (register_preserves sample_methodSet sample_String sample_Upper
                         intT (reflect.VOf (reflect.TBase reflect.Struct "arith" "main"))
                         "" false ep0))).
  vm_compute. discriminate.
Defined.



(** X9.  [register] panics on a nil receiver (the nil interface or a nil
    pointer), also when a name is supplied.  On a non-nil receiver it
    panics exactly when the name checks pass, the name is free, and
    [suitableMethods] panics for the receiver's type or, that type having
    no suitable method, for the pointer to it; a bad or taken name is
    answered with an error before any method is looked at. *)
Theorem register_panics_iff methodSet Type_String Upper argType name useName ep :
  (∀ rcvr, rcvr = reflect.VNilInterface ∨ (∃ t, rcvr = reflect.VNilPtr t) →
     (register methodSet Type_String Upper argType rcvr name useName ep).1
     = Panic "reflect: call of reflect.Value.Type on zero Value")
  ∧ (∀ ty r,
       (register methodSet Type_String Upper argType (reflect.VOf ty) name useName ep).1
       = Panic r
       ↔ service_name ty name useName ≠ ""
         ∧ (isExported Upper (service_name ty name useName) = true ∨ useName = true)
         ∧ services ep !! service_name ty name useName = None
         ∧ (suitableMethods methodSet Upper argType ty true = Panic r
            ∨ (suitableMethods methodSet Upper argType ty true = Done ∅
               ∧ suitableMethods methodSet Upper argType (reflect.PtrTo ty) false
                 = Panic r))).
Proof.
  split.
  { intros rcvr Hr. by rewrite register_nil. }
  intros ty r. rewrite register_VOf. cbv zeta.
  set (sname := service_name ty name useName).
  destruct (bool_decide (sname = "")) eqn:H1.
  { apply bool_decide_eq_true in H1. split; [done|]. by intros [? _]. }
  apply bool_decide_eq_false in H1.
  destruct (negb (isExported Upper sname) && negb useName) eqn:H2.
  { apply andb_true_iff in H2 as [H2 H2']. apply negb_true_iff in H2, H2'.
    split; [done|]. intros (_ & [?|?] & _); congruence. }
  destruct (bool_decide (is_Some (services ep !! sname))) eqn:H3.
  { apply bool_decide_eq_true in H3 as [x Hx]. split; [done|].
    intros (_ & _ & ? & _). congruence. }
  apply bool_decide_eq_false in H3.
  assert (Hnone : services ep !! sname = None).
  { destruct (services ep !! sname) eqn:?; [|done]. exfalso. apply H3. eauto. }
  assert (Hexp : isExported Upper sname = true ∨ useName = true).
  { apply andb_false_iff in H2 as [H2|H2]; apply negb_false_iff in H2; eauto. }
  destruct (suitableMethods methodSet Upper argType ty true) as [m|r'].
  - destruct (size m =? 0)%nat eqn:Hsz.
    + apply size_zero_empty in Hsz. subst m.
      destruct (suitableMethods _ _ _ (reflect.PtrTo ty) false) as [m2|r2]; simpl.
      * split; [done|]. intros (_ & _ & _ & [[=]|[_ [=]]]).
      * split.
        -- intros [= ->]. eauto 10.
        -- intros (_ & _ & _ & [[=]|[_ [= ->]]]). done.
    + simpl. split; [done|]. intros (_ & _ & _ & [[=]|[[= ->] _]]).
      by rewrite map_size_empty in Hsz.
  - simpl. split.
    + intros [= ->]. eauto 10.
    + intros (_ & _ & _ & [[= ->]|[[=] _]]). done.
Qed.

Lemma register_panics_iff_witness :
  (register sample_methodSet sample_String sample_Upper intT
     (reflect.VNilPtr (reflect.PtrTo arithT)) "Arith" true ep0).1
  = Panic "reflect: call of reflect.Value.Type on zero Value"
  ∧ (register sample_methodSet sample_String sample_Upper intT
       (reflect.VOf pingerT) "" false ep0).1 = Panic "index out of range".
Proof.
  split.
  - apply (proj1 (register_panics_iff sample_methodSet sample_String sample_Upper intT
                    "Arith" true ep0)).
    right. eexists. reflexivity.
  - apply (proj2 (register_panics_iff sample_methodSet sample_String sample_Upper intT
                    "" false ep0) pingerT "index out of range").
    split; [discriminate|]. split; [left; reflexivity|]. split; [reflexivity|].
    left. reflexivity.
Defined.

(** X10.  When the name checks pass but the receiver's type has no
    suitable method, [register] answers
    [rpc.Register: type <name> has no exported methods of suitable type],
    followed by the hint to pass a pointer exactly when the pointer to the
    receiver's type does have a suitable method; nothing is registered. *)
Theorem register_no_methods_hint methodSet Type_String Upper argType
    ty name useName ep m2 :
  service_name ty name useName ≠ "" →
  isExported Upper (service_name ty name useName) = true ∨ useName = true →
  services ep !! service_name ty name useName = None →
  suitableMethods methodSet Upper argType ty true = Done ∅ →
  suitableMethods methodSet Upper argType (reflect.PtrTo ty) false = Done m2 →
  ∃ ep',
    register methodSet Type_String Upper argType (reflect.VOf ty) name useName ep
    = (Done (Some ("rpc.Register: type " ++ service_name ty name useName
                   ++ " has no exported methods of suitable type"
                   ++ (if bool_decide (m2 = ∅) then ""
                       else " (hint: pass a pointer to value of that type)"))),
       ep')
    ∧ services ep' = services ep.
Proof.
  intros H1 H2 H3 Hm Hm2. rewrite register_VOf. cbv zeta.
  rewrite (bool_decide_eq_false_2 _ H1).
  assert (Hb2 : negb (isExported Upper (service_name ty name useName)) && negb useName
                = false).
  { destruct H2 as [->| ->]; [done|apply andb_false_r]. }
  rewrite Hb2.
  rewrite bool_decide_eq_false_2 by (rewrite H3; by intros [? ?]).
  rewrite Hm, Hm2, map_size_empty. simpl.
  exists (set_serviceMap ep (Some (services ep))). split; [|done].
  destruct (size m2 =? 0)%nat eqn:Hsz.
  - apply size_zero_empty in Hsz. rewrite bool_decide_eq_true_2 by done.
    reflexivity.
  - rewrite bool_decide_eq_false_2; [reflexivity|].
    intros ->. by rewrite map_size_empty in Hsz.
Qed.

Lemma register_no_methods_hint_witness :
  (register sample_methodSet2 sample_String sample_Upper intT
     (reflect.VOf counterT) "" false ep0).1
  = Done (Some "rpc.Register: type Counter has no exported methods of suitable type (hint: pass a pointer to value of that type)").
Proof.
  destruct (register_no_methods_hint sample_methodSet2 sample_String sample_Upper intT
              counterT "" false ep0 _ ltac:(discriminate) (or_introl eq_refl)
              eq_refl eq_refl eq_refl) as (ep' & -> & _).
  reflexivity.
Defined.

(** * Further properties of the send path and of the wrappers *)

Lemma Encode_frame cid obj (n : net) r n' :
  Encode cid obj n = (r, n') →
  (∀ id, Some id ≠ cid → n' !! id = n !! id)
  ∧ (∀ id, n !! id = None → n' !! id = None)
  ∧ (∀ id c, n !! id = Some c →
       ∃ c', n' !! id = Some c' ∧ written c `prefix_of` written c'
             ∧ wfault c' = wfault c ∧ nclose c' = nclose c).
Proof.
  intros HE.
  apply Encode_result in HE as [[_ (id0 & c0 & -> & Hc0 & ->)]|[[_ ->]|[_ ->]]].
  - split; [|split].
    + intros id Hne. apply lookup_insert_ne. congruence.
    + intros id Hn. rewrite lookup_insert_ne; [done|]. congruence.
    + intros id c Hc. destruct (decide (id0 = id)) as [->|Hne].
      * rewrite lookup_insert_eq. eexists. split; [done|]. simpl.
        assert (c = c0) as -> by congruence.
        split; [by apply prefix_app_r|done].
      * rewrite lookup_insert_ne by done. eauto.
  - split; [done|]. split; [done|]. eauto.
  - split; [done|]. split; [done|]. eauto.
Qed.

(** X11.  What a [Call] and a [Notify] can touch.  A [Call] changes of the
    endpoint only the counter and the pending entry of its own msgid; it
    adds at most one request object and alters none; in the store of
    connections it can only append to what was written on the endpoint's
    own connection.  A [Notify] changes neither the endpoint nor the
    request store and is confined to the connection in the same way. *)
Theorem send_path_frame method params ep w :
  (let '(res, ep', w') := Call method params ep w in
   ep' = set_pending (set_msgid ep (AddUint32 (msgid ep) 1)) (pending ep')
   ∧ (∀ k, k ≠ AddUint32 (msgid ep) 1 → pending ep' !! k = pending ep !! k)
   ∧ reqs w `prefix_of` reqs w'
   ∧ (length (reqs w') <= S (length (reqs w)))%nat
   ∧ (∀ id, Some id ≠ conn ep → conns w' !! id = conns w !! id)
   ∧ (∀ id c, conns w !! id = Some c →
        ∃ c', conns w' !! id = Some c' ∧ written c `prefix_of` written c'
              ∧ wfault c' = wfault c ∧ nclose c' = nclose c))
  ∧ (let '(res, ep', w') := Notify method params ep w in
     ep' = ep ∧ reqs w' = reqs w
     ∧ (∀ id, Some id ≠ conn ep → conns w' !! id = conns w !! id)
     ∧ (∀ id c, conns w !! id = Some c →
          ∃ c', conns w' !! id = Some c' ∧ written c `prefix_of` written c'
                ∧ wfault c' = wfault c ∧ nclose c' = nclose c)).
Proof.
  split.
  - destruct (closed ep) eqn:Hc.
    + rewrite Call_closed by done.
      split; [done|]. split; [done|]. split; [done|]. split; [lia|].
      split; [done|]. eauto.
    + rewrite Call_open by done. cbv zeta.
      destruct (Encode _ _ _) as [r n1] eqn:HE.
      apply Encode_frame in HE as (Hother & _ & Hown).
      assert (Hlen : (length (reqs w ++ [mkRequest ChOpen (AddUint32 (msgid ep) 1)
                                           VNil None])
                      <= S (length (reqs w)))%nat).
      { rewrite length_app. simpl. lia. }
      destruct r as [[e|]|p]; simpl;
        (split; [done|]); (split; [|split; [by apply prefix_app_r|done]]).
      * intros k Hk. by apply lookup_delete_ne.
      * intros k Hk. by apply lookup_insert_ne.
      * intros k Hk. by apply lookup_insert_ne.
  - unfold Notify, send. destruct (closed ep).
    + split; [done|]. split; [done|]. split; [done|]. eauto.
    + destruct (Encode _ _ _) as [r n1] eqn:HE.
      apply Encode_frame in HE as (Hother & _ & Hown). done.
Qed.

Lemma Call_msgid method params ep w :
  msgid (Call method params ep w).1.2 = AddUint32 (msgid ep) 1.
Proof.
  destruct (closed ep) eqn:Hc.
  - by rewrite Call_closed.
  - rewrite Call_open by done. cbv zeta.
    by destruct (Encode _ _ _) as [[[e|]|r] n1].
Qed.

(** X12.  The msgid counter advances by one modulo 2^32 on every [Call],
    whether the endpoint is closed, the write fails or the call is
    suspended: after [k] calls it stands at [(msgid + k) mod 2^32], so a
    call at [2^32 - 1] takes msgid 0. *)
Theorem Calls_counter method params k :
  ∀ ep w, 0 <= msgid ep < uint32_max →
          msgid (Calls k method params ep w).1
          = (msgid ep + Z.of_nat k) mod uint32_max.
Proof.
  induction k as [|k IH]; intros ep w Hr.
  - simpl. rewrite Z.add_0_r. symmetry. by apply Z.mod_small.
  - cbn [Calls]. pose proof (Call_msgid method params ep w) as Hm.
    destruct (Call method params ep w) as [[res ep'] w']. simpl in Hm.
    rewrite IH.
    + rewrite Hm. unfold AddUint32. rewrite Zplus_mod_idemp_l. f_equal. lia.
    + rewrite Hm. unfold AddUint32, uint32_max. apply Z.mod_pos_bound. lia.
Qed.

Lemma Calls_counter_witness :
  msgid (Calls 2 "m" [] ep_last w0).1 = 1.
Proof.
  assert (H : 0 <= msgid ep_last < uint32_max).
  { change (0 <= 2 ^ 32 - 1 < 2 ^ 32). lia. }
  exact (Calls_counter "m" [] 2 ep_last w0 H).
Defined.

(** X13.  [Close] of a wrapper touches the [closed] channel and the
    wrapper's connection only: the endpoint (closed flag, stored error,
    pending table, counter) and the request objects are as before, so no
    suspended call is resolved; nothing is written and no other connection
    changes.  When the channel is not an open channel, [Close] panics and
    changes nothing at all; when it completes, the channel is closed and
    the connection has been closed once. *)
Theorem Close_frame w :
  (∀ sc, let '(r, sc', w') := ServerConn_Close sc w in
     sc_ep sc' = sc_ep sc ∧ sc_conn sc' = sc_conn sc ∧ reqs w' = reqs w
     ∧ (∀ id, Some id ≠ sc_conn sc → conns w' !! id = conns w !! id)
     ∧ (∀ id c, conns w !! id = Some c →
          ∃ c', conns w' !! id = Some c' ∧ written c' = written c)
     ∧ (sc_closed sc ≠ ChOpen → (∃ p, r = Panic p) ∧ sc' = sc ∧ w' = w)
     ∧ (r = Done tt →
        sc_closed sc' = ChClosed
        ∧ ∃ id c, sc_conn sc = Some id ∧ conns w !! id = Some c
                  ∧ conns w' !! id = Some (conn_Close c)))
  ∧ (∀ c, let '(r, c', w') := Client_Close c w in
     c_ep c' = c_ep c ∧ c_conn c' = c_conn c ∧ reqs w' = reqs w
     ∧ (∀ id, Some id ≠ c_conn c → conns w' !! id = conns w !! id)
     ∧ (∀ id k, conns w !! id = Some k →
          ∃ k', conns w' !! id = Some k' ∧ written k' = written k)
     ∧ (c_closed c ≠ ChOpen → (∃ p, r = Panic p) ∧ c' = c ∧ w' = w)
     ∧ (r = Done tt →
        c_closed c' = ChClosed
        ∧ ∃ id k, c_conn c = Some id ∧ conns w !! id = Some k
                  ∧ conns w' !! id = Some (conn_Close k))).
Proof.
  assert (HC : ∀ cid r n',
            Close_conn cid (conns w) = (r, n') →
            (∀ id, Some id ≠ cid → n' !! id = conns w !! id)
            ∧ (∀ id c, conns w !! id = Some c →
                 ∃ c', n' !! id = Some c' ∧ written c' = written c)
            ∧ (r = Done tt →
               ∃ id c, cid = Some id ∧ conns w !! id = Some c
                       ∧ n' !! id = Some (conn_Close c))).
  { intros cid r n'. unfold Close_conn.
    destruct cid as [id0|]; [|intros [= <- <-]; split; [done|]; split; [eauto|done]].
    destruct (conns w !! id0) as [c0|] eqn:Hc0;
      [|intros [= <- <-]; split; [done|]; split; [eauto|done]].
    intros [= <- <-]. split; [|split].
    - intros id Hne. apply lookup_insert_ne. congruence.
    - intros id c Hc. destruct (decide (id0 = id)) as [->|Hne].
      + rewrite lookup_insert_eq. assert (c = c0) as -> by congruence. eauto.
      + rewrite lookup_insert_ne by done. eauto.
    - intros _. exists id0, c0. by rewrite lookup_insert_eq. }
  split.
  - intros sc. unfold ServerConn_Close.
    destruct (sc_closed sc) eqn:Hch; simpl.
    + do 4 (split; [done|]). split; [eauto|]. split; [eauto|]. intros [=].
    + destruct (Close_conn _ _) as [r n'] eqn:HCl.
      destruct (HC _ _ _ HCl) as (H1 & H2 & H3). simpl.
      do 3 (split; [done|]). split; [done|]. split; [done|]. split; [done|].
      intros Hr. split; [done|]. by apply H3.
    + do 4 (split; [done|]). split; [eauto|]. split; [eauto|]. intros [=].
  - intros c. unfold Client_Close.
    destruct (c_closed c) eqn:Hch; simpl.
    + do 4 (split; [done|]). split; [eauto|]. split; [eauto|]. intros [=].
    + destruct (Close_conn _ _) as [r n'] eqn:HCl.
      destruct (HC _ _ _ HCl) as (H1 & H2 & H3). simpl.
      do 3 (split; [done|]). split; [done|]. split; [done|]. split; [done|].
      intros Hr. split; [done|]. by apply H3.
    + do 4 (split; [done|]). split; [eauto|]. split; [eauto|]. intros [=].
Qed.

Lemma Close_frame_witness :
  ∃ sc' w', ServerConn_Close sc_open w0 = (Done tt, sc', w')
    ∧ sc_closed sc' = ChClosed ∧ sc_ep sc' = sc_ep sc_open ∧ reqs w' = reqs w0.
Proof.
  pose proof (proj1 (Close_frame w0) sc_open) as H.
  destruct (ServerConn_Close sc_open w0) as [[r sc'] w'] eqn:HC.
  destruct H as (Hep & _ & Hreqs & _ & _ & _ & Hdone).
  exists sc', w'.
  assert (Hr : r = Done tt) by (vm_compute in HC; congruence).
  subst r. split; [reflexivity|]. split; [exact (proj1 (Hdone eq_refl))|].
  split; [exact Hep|exact Hreqs].
Defined.

Lemma Encode_healthy id c obj (n : net) :
  n !! id = Some c → wfault c = None → nclose c = 0%nat →
  Encode (Some id) obj n
  = (Done None, <[id := mkConn (written c ++ [obj]) None 0]> n).
Proof.
  intros Hc Hf Hn. unfold Encode, conn_Write. rewrite Hc, Hn, Hf. done.
Qed.

(** X14.  Calls in a row on an open endpoint over a healthy connection,
    without wrap-around of the counter: after [k] such calls the counter
    has advanced by [k]; the msgids [msgid+1 .. msgid+k] are pending, each
    bound to a request object of its own that was made for it and holds
    that msgid with an open [done] channel; the entries and the request
    objects from before are untouched; and the connection carries the [k]
    request envelopes behind what was written before, in the order of the
    calls. *)
Theorem Calls_healthy method params k :
  ∀ ep w id c,
    closed ep = false → conn ep = Some id →
    conns w !! id = Some c → wfault c = None → nclose c = 0%nat →
    0 <= msgid ep → msgid ep + Z.of_nat k < uint32_max →
    ∃ ep' w' c',
      Calls k method params ep w = (ep', w')
      ∧ msgid ep' = msgid ep + Z.of_nat k
      ∧ closed ep' = false ∧ conn ep' = Some id
      ∧ length (reqs w') = (length (reqs w) + k)%nat
      ∧ (∀ i r, reqs w !! i = Some r → reqs w' !! i = Some r)
      ∧ (∀ j, (j < k)%nat →
           pending ep' !! (msgid ep + 1 + Z.of_nat j) = Some (length (reqs w) + j)%nat
           ∧ reqs w' !! (length (reqs w) + j)%nat
             = Some (mkRequest ChOpen (msgid ep + 1 + Z.of_nat j) VNil None))
      ∧ (∀ key, ¬ (msgid ep < key <= msgid ep + Z.of_nat k) →
           pending ep' !! key = pending ep !! key)
      ∧ conns w' !! id = Some c' ∧ wfault c' = None ∧ nclose c' = 0%nat
      ∧ written c'
        = (written c
           ++ map (λ j, request_envelope method params (msgid ep + 1 + Z.of_nat j))
                (seq 0 k))%list.
Proof.
  induction k as [|k IH]; intros ep w id c Hopen Hconn Hc Hf Hn H0 Hlt.
  - exists ep, w, c. simpl. rewrite app_nil_r.
    repeat split; try done; try lia.
  - cbn [Calls]. rewrite Call_open by done. cbv zeta.
    assert (Hid : AddUint32 (msgid ep) 1 = msgid ep + 1).
    { unfold AddUint32. apply Z.mod_small. unfold uint32_max in *. lia. }
    rewrite Hid, Hconn.
    rewrite (Encode_healthy id c) by done.
    set (r0 := mkRequest ChOpen (msgid ep + 1) VNil None).
    set (env := VSlice [VInt 0; VUint32 (msgid ep + 1); VString method; VSlice params]).
    set (c1 := mkConn (written c ++ [env]) None 0).
    set (ep1 := set_pending (set_msgid ep (msgid ep + 1))
                  (<[msgid ep + 1 := length (reqs w)]> (pending ep))).
    set (w1 := mkWorld (<[id := c1]> (conns w)) (reqs w ++ [r0])).
    destruct (IH ep1 w1 id c1) as
      (ep' & w' & c' & HC & Hm & Hcl & Hcn & Hlen & Hpre & Hnew & Hold & Hc' & Hf' & Hn' & Hw);
      try done.
    { simpl. apply lookup_insert_eq. }
    { simpl. lia. }
    { simpl. lia. }
    exists ep', w', c'. simpl in Hm, Hlen, Hnew, Hold, Hw.
    rewrite length_app in Hlen, Hnew. simpl in Hlen, Hnew.
    split; [done|]. split; [lia|]. split; [done|]. split; [done|].
    split; [lia|]. split; [|split; [|split; [|split; [done|split; [done|split; [done|]]]]]].
    + intros i r Hi. apply Hpre. simpl. by apply lookup_app_l_Some.
    + intros [|j] Hj.
      * rewrite Z.add_0_r, Nat.add_0_r. split.
        -- rewrite Hold by lia. simpl. apply lookup_insert_eq.
        -- apply Hpre. simpl. by apply list_lookup_middle.
      * destruct (Hnew j) as [Hp Hr]; [lia|].
        replace (msgid ep + 1 + Z.of_nat (S j)) with (msgid ep + 1 + 1 + Z.of_nat j) by lia.
        replace (length (reqs w) + S j)%nat with (length (reqs w) + 1 + j)%nat by lia.
        done.
    + intros key Hkey. rewrite Hold by lia. simpl.
      apply lookup_insert_ne. lia.
    + rewrite Hw. subst c1. simpl. rewrite <- app_assoc. f_equal. simpl.
      unfold request_envelope at 2. rewrite Z.add_0_r. f_equal.
      rewrite <- seq_shift, map_map. apply map_ext. intros j.
      f_equal. lia.
Qed.

Lemma Calls_healthy_witness :
  ∃ ep' w' c',
    Calls 2 "m" [] ep0 w0 = (ep', w')
    ∧ msgid ep' = 2
    ∧ pending ep' !! 1 = Some 0%nat ∧ pending ep' !! 2 = Some 1%nat
    ∧ conns w' !! 0%nat = Some c'
    ∧ written c' = [request_envelope "m" [] 1; request_envelope "m" [] 2].
Proof.
  destruct (Calls_healthy "m" [] 2 ep0 w0 0%nat conn0 eq_refl eq_refl eq_refl eq_refl
              eq_refl ltac:(simpl; lia) ltac:(unfold uint32_max; simpl; lia))
    as (ep' & w' & c' & HC & Hm & _ & _ & _ & _ & Hnew & _ & Hc' & _ & _ & Hw).
  exists ep', w', c'. split; [exact HC|]. split; [exact Hm|].
  split; [exact (proj1 (Hnew 0%nat ltac:(lia)))|].
  split; [exact (proj1 (Hnew 1%nat ltac:(lia)))|].
  split; [exact Hc'|exact Hw].
Defined.

(** X15.  On a new endpoint, whatever the connection does and however
    each call ends, after [k < 2^32] calls the counter stands at [k] and
    every pending msgid lies in [1, k]: no msgid outside the ones handed
    out is ever pending. *)
Theorem new_endpoint_pending_range method params k conn h w :
  Z.of_nat k < uint32_max →
  pending_below (Calls k method params (newEndpoint conn h) w).1
  ∧ msgid (Calls k method params (newEndpoint conn h) w).1 = Z.of_nat k.
Proof.
  intros Hk.
  destruct (Calls_no_wrap method params k (newEndpoint conn h) w eq_refl
              (newEndpoint_pending_below _ _) Hk) as [H1 H2].
  split; [done|]. rewrite H2. simpl. lia.
Qed.

Lemma new_endpoint_pending_range_witness :
  pending_below (Calls 3 "m" [] ep0 w1_broken).1
  ∧ msgid (Calls 3 "m" [] ep0 w1_broken).1 = 3.
Proof.
  exact (new_endpoint_pending_range "m" [] 3 (Some 0%nat) 7%nat w1_broken eq_refl).
Defined.

(** X16.  Calls whose writes fail leave no trace in the pending table:
    on an open endpoint whose connection answers writes with an error,
    [k] calls whose msgids are not pending return the table to what it
    was, write nothing, and advance only the counter; each of them leaves
    behind one request object that nothing refers to. *)
Theorem failed_calls_keep_pending method params k ep w id c e :
  closed ep = false → conn ep = Some id →
  conns w !! id = Some c → wfault c = Some e → nclose c = 0%nat →
  0 <= msgid ep < uint32_max →
  (∀ j, 1 <= j <= Z.of_nat k →
        pending ep !! ((msgid ep + j) mod uint32_max) = None) →
  pending (Calls k method params ep w).1 = pending ep
  ∧ msgid (Calls k method params ep w).1 = (msgid ep + Z.of_nat k) mod uint32_max
  ∧ conns (Calls k method params ep w).2 = conns w
  ∧ reqs w `prefix_of` reqs (Calls k method params ep w).2
  ∧ length (reqs (Calls k method params ep w).2) = (length (reqs w) + k)%nat.
Proof.
  intros Hopen Hconn Hc He Hn Hm Hfree.
  destruct (Calls_failing method params k ep w id c e Hopen Hconn Hc He Hn Hm Hfree)
    as (g & Hg & ->).
  simpl. split; [done|]. split; [done|]. split; [done|].
  split; [by apply prefix_app_r|]. rewrite length_app. lia.
Qed.

Lemma failed_calls_keep_pending_witness :
  pending (Calls 3 "m" [] ep1 w1_broken).1 = pending ep1
  ∧ msgid (Calls 3 "m" [] ep1 w1_broken).1 = 4
  ∧ conns (Calls 3 "m" [] ep1 w1_broken).2 = conns w1_broken.
Proof.
  destruct (failed_calls_keep_pending "m" [] 3 ep1 w1_broken 0%nat
              (mkConn [env1] (Some "i/o timeout") 0) "i/o timeout"
              eq_refl eq_refl eq_refl eq_refl eq_refl
              ltac:(unfold uint32_max; simpl; lia)) as (H1 & H2 & H3 & _).
  - intros j Hj. apply lookup_singleton_ne.
    change (msgid ep1) with 1. unfold uint32_max.
    rewrite Z.mod_small by lia. lia.
  - split; [exact H1|]. split; [exact H2|exact H3].
Defined.

Lemma send_path_frame_witness :
  let '(res, ep', w') := Call "m" [] ep1 w1 in
  pending ep' !! 1 = pending ep1 !! 1 ∧ reqs w1 `prefix_of` reqs w'.
Proof.
  destruct (proj1 (send_path_frame "m" [] ep1 w1)) as (_ & Hk & Hp & _).
  split; [|exact Hp]. apply Hk. discriminate.
Defined.
